(** * SquadCalc: keypad codec, geometry, ballistic solver and solve operation

    A shallow embedding of the calculation core of SquadCalc
    (the classic-UI utilities module: [getPos], [formatKeyPad], [getKP],
    [pad], [getBearing], [getDist], [getElevation], [getHeight], [shoot],
    [getElevationWithEllipseParams], [getCalcFromUI], [isMultiple],
    [copyCalc], [saveCalc], [RemoveSaves] and their helpers), and of the
    map widget's own [getKP] and [_handleMouseMove] methods.

    Number model.  A JavaScript number is an IEEE double.  Here the finite
    doubles are idealised as exact numbers: rationals ([Q]) in the keypad
    codec, whose arithmetic is rational and which must evaluate, reals ([R])
    in the geometry and the solver, which use [Math.sqrt], [Math.atan] and
    the like.  Not-a-number is a constructor of its own in both, the
    infinities are kept on the real side (where a quotient by zero can be
    reached); rounding error and overflow are outside the model, and zero
    carries no sign.  Where rounding decides, the codec is taken on the
    doubles themselves: module [B64] holds [getKP] and [getPos] on
    binary64 numbers, rounded as the machine rounds them.

    String model.  A JavaScript string is its sequence of UTF-16 code
    units, a [list Z]. *)

From Stdlib Require Import String Ascii DecimalString.
From Stdlib Require Import List ZArith QArith Qround Qabs Qpower Bool.
From Stdlib Require Import Reals Lia Psatz.
From Stdlib Require PrimFloat FloatOps SpecFloat Uint63.
Import ListNotations.

Local Open Scope Z_scope.

(* ================================================================== *)
(** ** JavaScript strings *)

Module JS.

Definition jsstring := list Z.

(** A literal: the code units of an ASCII Rocq string. *)
Definition js (s : string) : jsstring :=
  map (fun a => Z.of_N (N_of_ascii a)) (list_ascii_of_string s).

(** [String.fromCharCode(c)] for an integer [c]: one code unit, [c]
    taken modulo 2^16. *)
Definition fromCharCode (c : Z) : jsstring := [c mod 65536].

(** [s.toUpperCase()], on the ASCII range; other code units are left as
    they are (the Unicode case mappings are not modelled). *)
Definition upperUnit (c : Z) : Z :=
  if (97 <=? c) && (c <=? 122) then c - 32 else c.

Definition toUpperCase (s : jsstring) : jsstring := map upperUnit s.

(** [s.split(sep)] for a separator of one code unit: never empty. *)
Fixpoint split (sep : Z) (s : jsstring) : list jsstring :=
  match s with
  | [] => [[]]
  | c :: s' =>
      if c =? sep then [] :: split sep s'
      else match split sep s' with
           | p :: ps => (c :: p) :: ps
           | [] => [[c]]
           end
  end.

(** [parts.join(sep)]. *)
Fixpoint join (sep : jsstring) (parts : list jsstring) : jsstring :=
  match parts with
  | [] => []
  | [p] => p
  | p :: ps => p ++ sep ++ join sep ps
  end.

(** [s.slice(b, e)] for [0 <= b <= e], and [s.slice(b)]. *)
Definition slice (b e : nat) (s : jsstring) : jsstring :=
  firstn (e - b) (skipn b s).

Definition sliceFrom (b : nat) (s : jsstring) : jsstring := skipn b s.

(** [s.substr(-size)]: the last [size] code units (all of [s] when it
    is shorter). *)
Definition substrLast (size : nat) (s : jsstring) : jsstring :=
  skipn (length s - size) s.

(** [`${n}`] for an integer-valued number [n]: its decimal digits. *)
Definition numToString (n : Z) : jsstring :=
  js (NilZero.string_of_int (Z.to_int n)).

Definition dash : Z := 45.

(** The empty string. *)
Definition emptyString : jsstring := [].

End JS.
Import JS.

(* ================================================================== *)
(** ** Numbers of the keypad codec *)

(** [x < y] on rationals, as a boolean. *)
Definition Qlt_bool (x y : Q) : bool := negb (Qle_bool y x).

(** A number of the codec: not-a-number or a rational. *)
Inductive qnum : Type :=
| QNaN
| QFin (q : Q).

Module QNum.

Definition lift2 (f : Q -> Q -> Q) (a b : qnum) : qnum :=
  match a, b with
  | QFin x, QFin y => QFin (f x y)
  | _, _ => QNaN
  end.

Definition add := lift2 Qplus.
Definition sub := lift2 Qminus.
Definition mul := lift2 Qmult.

(** [a / b]; no divisor of the codec is zero (they are the literals 2
    and 3 and powers of 3), the quotient by zero, an infinity in
    JavaScript, is left out of this type. *)
Definition div (a b : qnum) : qnum :=
  match a, b with
  | QFin x, QFin y => if Qeq_bool y 0 then QNaN else QFin (x / y)
  | _, _ => QNaN
  end.

(** [Math.trunc] on rationals, and JavaScript's [%], whose result has
    the sign of the dividend: [a - b * trunc (a / b)]. *)
Definition Qtrunc (x : Q) : Z :=
  if Qle_bool 0 x then Qfloor x else Qceiling x.

Definition rem (a b : qnum) : qnum :=
  match a, b with
  | QFin x, QFin y =>
      if Qeq_bool y 0 then QNaN
      else QFin (x - y * inject_Z (Qtrunc (x / y)))
  | _, _ => QNaN
  end.

(** [Math.ceil]. *)
Definition ceil (a : qnum) : qnum :=
  match a with
  | QFin x => QFin (inject_Z (Qceiling x))
  | QNaN => QNaN
  end.

(** [a < b]: false when either side is not-a-number. *)
Definition ltb (a b : qnum) : bool :=
  match a, b with
  | QFin x, QFin y => Qlt_bool x y
  | _, _ => false
  end.

(** [Number.isNaN]. *)
Definition isNaN (a : qnum) : bool :=
  match a with QNaN => true | QFin _ => false end.

Definition ofZ (z : Z) : qnum := QFin (inject_Z z).

End QNum.

Declare Scope qnum_scope.
Delimit Scope qnum_scope with qn.
Infix "+" := QNum.add : qnum_scope.
Infix "-" := QNum.sub : qnum_scope.
Infix "*" := QNum.mul : qnum_scope.
Infix "/" := QNum.div : qnum_scope.
Infix "mod" := QNum.rem : qnum_scope.

(* ================================================================== *)
(** ** [Number(s)] on short strings *)

Module ToNumber.

(** White space and line terminators of the StringToNumber grammar. *)
Definition isWhiteSpace (c : Z) : bool :=
  existsb (Z.eqb c)
    [9; 10; 11; 12; 13; 32; 160; 5760; 8232; 8233; 8239; 8287; 12288; 65279]
  || ((8192 <=? c) && (c <=? 8202)).

Fixpoint trimStart (s : jsstring) : jsstring :=
  match s with
  | c :: s' => if isWhiteSpace c then trimStart s' else s
  | [] => []
  end.

Definition trim (s : jsstring) : jsstring :=
  rev (trimStart (rev (trimStart s))).

Definition isDigit (c : Z) : bool := (48 <=? c) && (c <=? 57).

(** Value of a run of decimal digits, most significant first. *)
Fixpoint digitsValue (acc : Z) (s : jsstring) : Z :=
  match s with
  | [] => acc
  | c :: s' => digitsValue (10 * acc + (c - 48)) s'
  end.

(** An unsigned decimal literal without exponent: [D+], [D+ . D*] or
    [. D+]. *)
Definition unsignedDecimal (s : jsstring) : qnum :=
  match split 46 s with
  | [ds] =>
      if forallb isDigit ds && negb (length ds =? 0)%nat
      then QFin (inject_Z (digitsValue 0 ds)) else QNaN
  | [ds; fs] =>
      if forallb isDigit ds && forallb isDigit fs
         && negb ((length ds =? 0)%nat && (length fs =? 0)%nat)
      then QFin (inject_Z (digitsValue 0 ds)
                 + inject_Z (digitsValue 0 fs)
                   / inject_Z (10 ^ Z.of_nat (length fs)))%Q
      else QNaN
  | _ => QNaN
  end.

(** [Number(s)]: white space trimmed, the empty string is 0, then an
    optionally signed decimal literal.  Exponents, the radix prefixes
    [0x], [0o], [0b] and [Infinity] are not recognised here: each needs
    three code units or more, and the codec converts strings of at most
    two. *)
Definition Number (s : jsstring) : qnum :=
  match trim s with
  | [] => QFin 0%Q
  | 43 :: s' => unsignedDecimal s'
  | 45 :: s' => (QFin 0%Q - unsignedDecimal s')%qn
  | s' => unsignedDecimal s'
  end.

End ToNumber.
Import ToNumber.

(* ================================================================== *)
(** ** Keypad codec *)

(** A position [{ lat, lng }]. *)
Record LatLng (num : Type) : Type := mkLatLng { lat : num; lng : num }.
Arguments mkLatLng {num} lat lng.
Arguments lat {num} l.
Arguments lng {num} l.

(** What a call may throw. *)
Inductive exn : Type := TypeError.

Inductive result (A : Type) : Type :=
| Ok (a : A)
| Throw (e : exn).
Arguments Ok {A} a.
Arguments Throw {A} e.

(** The loop of [formatKeyPad]: from index [i], one part per remaining
    code unit of [TEXTND]; [n] is the number of iterations left,
    [TEXTND.length - i]. *)
Fixpoint formatKeyPad_loop (TEXTND : jsstring) (i n : nat) : list jsstring :=
  match n with
  | O => []
  | S n' => slice i (i + 1) TEXTND :: formatKeyPad_loop TEXTND (i + 1) n'
  end.

(** [formatKeyPad(text)]; [None] is [undefined], returned for the empty
    string. *)
Definition formatKeyPad (text : jsstring) : option jsstring :=
  if (length text =? 0)%nat then None
  else
    let TEXTND := join [] (split dash (toUpperCase text)) in
    let TEXTPARTS :=
      slice 0 3 TEXTND :: formatKeyPad_loop TEXTND 3 (length TEXTND - 3) in
    Some (join [dash] TEXTPARTS).

(** [s.charCodeAt(0)]: not-a-number on the empty string. *)
Definition charCodeAt0 (s : jsstring) : qnum :=
  match s with
  | c :: _ => QNum.ofZ c
  | [] => QNaN
  end.

(** [300 / 3 ** i]. *)
Definition interval (i : nat) : Q := (300 / 3 ^ Z.of_nat i)%Q.

(** The loop of [getPos] from index [i] on: [inl] is the early return of
    the first iteration, [inr] the accumulated [lat] and [lng]. *)
Fixpoint getPos_loop (PARTS : list jsstring) (i : nat) (lat lng : qnum)
  : LatLng qnum + qnum * qnum :=
  match PARTS with
  | [] => inr (lat, lng)
  | part :: rest =>
      if (i =? 0)%nat then
        let LETTERCODE := charCodeAt0 part in
        let LETTERINDEX := (LETTERCODE - QFin 65)%qn in
        if QNum.ltb (charCodeAt0 part) (QFin 65)
        then inl {| lat := QNaN; lng := QNaN |}
        else
          let KEYPADNB := (Number (sliceFrom 1 part) - QFin 1)%qn in
          getPos_loop rest (i + 1)
            (lat + QFin 300 * LETTERINDEX)%qn
            (lng + QFin 300 * KEYPADNB)%qn
      else
        let SUB := Number part in
        let subX := ((SUB - QFin 1) mod QFin 3)%qn in
        let subY := (QFin 2 - (QNum.ceil (SUB / QFin 3) - QFin 1))%qn in
        getPos_loop rest (i + 1)
          (lat + QFin (interval i) * subX)%qn
          (lng + QFin (interval i) * subY)%qn
  end.

(** [getPos(kp)].  [formatKeyPad] returns [undefined] on the empty string
    and [undefined.split] throws a TypeError.  (The console message for a
    non-numeric sub-keypad is not modelled.) *)
Definition getPos (kp : jsstring) : result (LatLng qnum) :=
  match formatKeyPad kp with
  | None => Throw TypeError
  | Some FORMATTED_KEYPAD =>
      let PARTS := split dash FORMATTED_KEYPAD in
      match getPos_loop PARTS 0 (QFin 0) (QFin 0) with
      | inl early => Ok early
      | inr (lat, lng) =>
          let i := length PARTS in
          let half := (QFin (interval (i - 1)) / QFin 2)%qn in
          Ok {| lat := (lat + half)%qn; lng := (lng + half)%qn |}
      end
  end.

(** [pad(num, size)]: [`0000${num}`.substr(-size)]. *)
Definition pad (num : Z) (size : nat) : jsstring :=
  substrLast size (js "0000" ++ numToString num).

(** [!precision] for an argument that is a number or missing
    ([None], [undefined]). *)
Definition notPrecision (precision : option Q) : bool :=
  match precision with
  | None => true
  | Some p => Qeq_bool p 0
  end.

(** [getKP(lat, lng, precision)] of the utilities module; [zoom] is what
    [globalData.minimap.getZoom()] returns.  [Math.floor] yields an
    integer, and the integer-valued numbers derived from it are typed
    [Z]. *)
Definition getKP (lat lng : Q) (precision : option Q) (zoom : Q) : jsstring :=
  let x := lng in
  let y := lat in
  if Qlt_bool x 0 || Qlt_bool y 0 then js "XXX-X-X"
  else
    let kp := interval 0 in
    let s1 := interval 1 in
    let s2 := interval 2 in
    let s3 := interval 3 in
    let s4 := interval 4 in
    let kpCharCode := 65 + Qfloor (x / kp) in
    let kpLetter :=
      if kpCharCode >? 90 then fromCharCode (kpCharCode + 6)
      else fromCharCode kpCharCode in
    let kpNumber := Qfloor (y / kp) + 1 in
    let subY := Z.rem (Qfloor (y / s1)) 3 in
    let subNumber := 10 - (subY + 1) * 3 + Z.rem (Qfloor (x / s1)) 3 in
    let sub2Y := Z.rem (Qfloor (y / s2)) 3 in
    let sub2Number := 10 - (sub2Y + 1) * 3 + Z.rem (Qfloor (x / s2)) 3 in
    let sub3Y := Z.rem (Qfloor (y / s3)) 3 in
    let sub3Number := 10 - (sub3Y + 1) * 3 + Z.rem (Qfloor (x / s3)) 3 in
    let sub4Y := Z.rem (Qfloor (y / s4)) 3 in
    let sub4Number := 10 - (sub4Y + 1) * 3 + Z.rem (Qfloor (x / s4)) 3 in
    let precision := if notPrecision precision then zoom
                     else match precision with Some p => p | None => zoom end in
    let macro := kpLetter ++ pad kpNumber 2 in
    if Qeq_bool precision 0 then macro
    else if Qeq_bool precision 1 then macro
    else if Qeq_bool precision 2 then macro
    else if Qeq_bool precision 3 then
      macro ++ [dash] ++ numToString subNumber
    else if Qeq_bool precision 4 then
      macro ++ [dash] ++ numToString subNumber
            ++ [dash] ++ numToString sub2Number
    else if Qeq_bool precision 5 then
      macro ++ [dash] ++ numToString subNumber
            ++ [dash] ++ numToString sub2Number
            ++ [dash] ++ numToString sub3Number
    else
      macro ++ [dash] ++ numToString subNumber
            ++ [dash] ++ numToString sub2Number
            ++ [dash] ++ numToString sub3Number
            ++ [dash] ++ numToString sub4Number.


(** [getKP(lat, lng, precision)] of the map widget ([squadMinimap]): the
    default [Math.round(this.getZoom())] replaces a missing argument
    only; no test on negative input and no shift of the letter.
    [roundedZoom] is [Math.round(this.getZoom())]. *)
Definition minimap_getKP (mapToGameScale : Q) (lat lng : Q)
    (precision : option Q) (roundedZoom : Q) : jsstring :=
  let precision := match precision with Some p => p | None => roundedZoom end in
  let x := (lng * mapToGameScale)%Q in
  let y := (lat * mapToGameScale)%Q in
  let kp := interval 0 in
  let kpNumber := substrLast 2 (js "0000" ++ numToString (Qfloor (y / kp) + 1)) in
  let s1 := interval 1 in
  let s2 := interval 2 in
  let s3 := interval 3 in
  let s4 := interval 4 in
  let kpCharCode := 65 + Qfloor (x / kp) in
  let kpLetter := fromCharCode kpCharCode in
  let subY := Z.rem (Qfloor (y / s1)) 3 in
  let subNumber := 10 - (subY + 1) * 3 + Z.rem (Qfloor (x / s1)) 3 in
  let sub2Y := Z.rem (Qfloor (y / s2)) 3 in
  let sub2Number := 10 - (sub2Y + 1) * 3 + Z.rem (Qfloor (x / s2)) 3 in
  let sub3Y := Z.rem (Qfloor (y / s3)) 3 in
  let sub3Number := 10 - (sub3Y + 1) * 3 + Z.rem (Qfloor (x / s3)) 3 in
  let sub4Y := Z.rem (Qfloor (y / s4)) 3 in
  let sub4Number := 10 - (sub4Y + 1) * 3 + Z.rem (Qfloor (x / s4)) 3 in
  let macro := kpLetter ++ kpNumber in
  if Qeq_bool precision 0 then macro
  else if Qeq_bool precision 1 then macro
  else if Qeq_bool precision 2 then macro
  else if Qeq_bool precision 3 then
    macro ++ [dash] ++ numToString subNumber
  else if Qeq_bool precision 4 then
    macro ++ [dash] ++ numToString subNumber
          ++ [dash] ++ numToString sub2Number
  else if Qeq_bool precision 5 then
    macro ++ [dash] ++ numToString subNumber
          ++ [dash] ++ numToString sub2Number
          ++ [dash] ++ numToString sub3Number
  else
    macro ++ [dash] ++ numToString subNumber
          ++ [dash] ++ numToString sub2Number
          ++ [dash] ++ numToString sub3Number
          ++ [dash] ++ numToString sub4Number.

(* ================================================================== *)
(** ** The keypad codec on binary64 numbers *)

(** [getPos] and [getKP] once more, on the doubles of the machine: sums,
    products and quotients are the correctly rounded ones of IEEE 754,
    [Math.floor], [Math.ceil] and [%] are exact.  The strings are those
    of the codec above. *)
Module B64.

Import PrimFloat FloatOps SpecFloat.

(** The double of an integer, exact below 2^53 in magnitude. *)
Definition ofZ (z : Z) : float :=
  if z <? 0 then (- of_uint63 (Uint63.of_Z (- z)))%float
  else of_uint63 (Uint63.of_Z z).

(** The integer part of the magnitude [m * 2^e], and whether it is the
    whole of it. *)
Definition magnitude (m : positive) (e : Z) : Z * bool :=
  if 0 <=? e then (Z.pos m * 2 ^ e, true)
  else (Z.pos m / 2 ^ (- e), Z.pos m mod 2 ^ (- e) =? 0).

(** [Math.floor]. *)
Definition floor (f : float) : float :=
  match Prim2SF f with
  | S754_finite s m e =>
      if 0 <=? e then f
      else
        let (q, exact) := magnitude m e in
        if s then ofZ (if exact then - q else - q - 1) else ofZ q
  | _ => f
  end.

(** [Math.ceil]; above -1 a negative fraction gives the negative zero. *)
Definition ceil (f : float) : float :=
  match Prim2SF f with
  | S754_finite s m e =>
      if 0 <=? e then f
      else
        let (q, exact) := magnitude m e in
        if s then (if q =? 0 then neg_zero else ofZ (- q))
        else ofZ (if exact then q else q + 1)
  | _ => f
  end.

(** The double [r * 2^e] for a natural [r], when it is one. *)
Definition scale (r e : Z) : float :=
  let k := Z.max 0 (Z.log2 r - 52) in
  Z.ldexp (ofZ (r / 2 ^ k)) (e + k).

(** [a % b]: the remainder of the truncated division, exact, with the
    sign of the dividend. *)
Definition rem (a b : float) : float :=
  match Prim2SF a, Prim2SF b with
  | S754_nan, _ | _, S754_nan => nan
  | S754_infinity _, _ | _, S754_zero _ => nan
  | S754_zero _, _ | _, S754_infinity _ => a
  | S754_finite sa ma ea, S754_finite _ mb eb =>
      let e := Z.min ea eb in
      let r := (Z.pos ma * 2 ^ (ea - e)) mod (Z.pos mb * 2 ^ (eb - e)) in
      if sa then (- scale r e)%float else scale r e
  end.

(** The integer that [ToUint16] reduces: the number truncated, 0 for
    not-a-number and the infinities. *)
Definition toInteger (f : float) : Z :=
  match Prim2SF f with
  | S754_finite s m e => let (q, _) := magnitude m e in if s then - q else q
  | _ => 0
  end.

(** [String.fromCharCode(f)]. *)
Definition fromCharCode (f : float) : jsstring := JS.fromCharCode (toInteger f).

(** [`${f}`] for not-a-number, the infinities and the integers below
    10^21 in magnitude; [None] for the other numbers (a fraction, or
    the exponent notation), which the codec never prints below that
    magnitude. *)
Definition toString (f : float) : option jsstring :=
  match Prim2SF f with
  | S754_nan => Some (js "NaN")
  | S754_infinity s => Some (if s then js "-Infinity" else js "Infinity")
  | S754_zero _ => Some (js "0")
  | S754_finite s m e =>
      let (q, exact) := magnitude m e in
      if exact && (q <? 10 ^ 21)
      then Some (numToString (if s then - q else q)) else None
  end.

(** [pad(num, size)]. *)
Definition pad (num : float) (size : nat) : option jsstring :=
  option_map (fun s => substrLast size (js "0000" ++ s)) (toString num).

(** The double nearest to a number that [Number] reads; numerator and
    denominator are below 2^53 for the strings of at most two code
    units that the codec converts. *)
Definition ofQnum (a : qnum) : float :=
  match a with
  | QNaN => nan
  | QFin q => (ofZ (Qnum q) / ofZ (Z.pos (Qden q)))%float
  end.

Definition Number (s : jsstring) : float := ofQnum (ToNumber.Number s).

(** [s.charCodeAt(0)]. *)
Definition charCodeAt0 (s : jsstring) : float :=
  match s with
  | c :: _ => ofZ c
  | [] => nan
  end.

(** [3 ** i], exact up to [i = 33]. *)
Fixpoint pow3 (i : nat) : float :=
  match i with
  | O => 1%float
  | S i' => (3 * pow3 i')%float
  end.

(** [300 / 3 ** i]. *)
Definition interval (i : nat) : float := (300 / pow3 i)%float.

(** The loop of [getPos], as [getPos_loop] above. *)
Fixpoint getPos_loop (PARTS : list jsstring) (i : nat) (lat lng : float)
  : LatLng float + float * float :=
  match PARTS with
  | [] => inr (lat, lng)
  | part :: rest =>
      if (i =? 0)%nat then
        let LETTERCODE := charCodeAt0 part in
        let LETTERINDEX := (LETTERCODE - 65)%float in
        if ltb (charCodeAt0 part) 65%float
        then inl {| lat := nan; lng := nan |}
        else
          let KEYPADNB := (Number (sliceFrom 1 part) - 1)%float in
          getPos_loop rest (i + 1)
            (lat + 300 * LETTERINDEX)%float
            (lng + 300 * KEYPADNB)%float
      else
        let SUB := Number part in
        let subX := rem (SUB - 1)%float 3%float in
        let subY := (2 - (ceil (SUB / 3) - 1))%float in
        getPos_loop rest (i + 1)
          (lat + interval i * subX)%float
          (lng + interval i * subY)%float
  end.

(** [getPos(kp)]. *)
Definition getPos (kp : jsstring) : result (LatLng float) :=
  match formatKeyPad kp with
  | None => Throw TypeError
  | Some FORMATTED_KEYPAD =>
      let PARTS := split dash FORMATTED_KEYPAD in
      match getPos_loop PARTS 0 0%float 0%float with
      | inl early => Ok early
      | inr (lat, lng) =>
          let i := length PARTS in
          let half := (interval (i - 1) / 2)%float in
          Ok {| lat := (lat + half)%float; lng := (lng + half)%float |}
      end
  end.

(** [!precision] for a number or a missing argument. *)
Definition notPrecision (precision : option float) : bool :=
  match precision with
  | None => true
  | Some p => is_nan p || is_zero p
  end.

(** The strings of a template, one after the other. *)
Fixpoint template (parts : list (option jsstring)) : option jsstring :=
  match parts with
  | [] => Some []
  | Some s :: rest => option_map (app s) (template rest)
  | None :: _ => None
  end.

(** [getKP(lat, lng, precision)] of the utilities module. *)
Definition getKP (lat lng : float) (precision : option float) (zoom : float)
  : option jsstring :=
  let x := lng in
  let y := lat in
  if ltb x 0%float || ltb y 0%float then Some (js "XXX-X-X")
  else
    let kp := interval 0 in
    let s1 := interval 1 in
    let s2 := interval 2 in
    let s3 := interval 3 in
    let s4 := interval 4 in
    let kpCharCode := (65 + floor (x / kp))%float in
    let kpLetter :=
      if ltb 90%float kpCharCode then fromCharCode (kpCharCode + 6)%float
      else fromCharCode kpCharCode in
    let kpNumber := (floor (y / kp) + 1)%float in
    let subY := rem (floor (y / s1)) 3%float in
    let subNumber := (10 - (subY + 1) * 3 + rem (floor (x / s1)) 3)%float in
    let sub2Y := rem (floor (y / s2)) 3%float in
    let sub2Number := (10 - (sub2Y + 1) * 3 + rem (floor (x / s2)) 3)%float in
    let sub3Y := rem (floor (y / s3)) 3%float in
    let sub3Number := (10 - (sub3Y + 1) * 3 + rem (floor (x / s3)) 3)%float in
    let sub4Y := rem (floor (y / s4)) 3%float in
    let sub4Number := (10 - (sub4Y + 1) * 3 + rem (floor (x / s4)) 3)%float in
    let precision :=
      if notPrecision precision then zoom
      else match precision with Some p => p | None => zoom end in
    let macro := [Some kpLetter; pad kpNumber 2] in
    let sub n := [Some [dash]; toString n] in
    if eqb precision 0%float then template macro
    else if eqb precision 1%float then template macro
    else if eqb precision 2%float then template macro
    else if eqb precision 3%float then template (macro ++ sub subNumber)
    else if eqb precision 4%float then
      template (macro ++ sub subNumber ++ sub sub2Number)
    else if eqb precision 5%float then
      template (macro ++ sub subNumber ++ sub sub2Number ++ sub sub3Number)
    else
      template (macro ++ sub subNumber ++ sub sub2Number ++ sub sub3Number
                ++ sub sub4Number).

(** The exact value of a finite double. *)
Definition value (f : float) : option Q :=
  match Prim2SF f with
  | S754_zero _ => Some 0%Q
  | S754_finite s m e =>
      Some ((if s then - (1) else 1) * inject_Z (Z.pos m) * 2 ^ e)%Q
  | _ => None
  end.

End B64.

(* ================================================================== *)
(** ** Numbers of the geometry and of the solver *)

(** Not-a-number, the two infinities, or a real. *)
Inductive rnum : Type :=
| NaN
| Infinity (negative : bool)
| Fin (r : R).

Module RNum.

Local Open Scope R_scope.

Definition Rltb (x y : R) : bool := if Rlt_dec x y then true else false.

Definition neg (a : rnum) : rnum :=
  match a with
  | NaN => NaN
  | Infinity s => Infinity (negb s)
  | Fin x => Fin (- x)
  end.

Definition add (a b : rnum) : rnum :=
  match a, b with
  | Fin x, Fin y => Fin (x + y)
  | Infinity s, Fin _ | Fin _, Infinity s => Infinity s
  | Infinity s, Infinity t => if Bool.eqb s t then Infinity s else NaN
  | _, _ => NaN
  end.

Definition sub (a b : rnum) : rnum := add a (neg b).

(** An infinity times [x]: not-a-number at zero. *)
Definition scaleInf (s : bool) (x : R) : rnum :=
  if Rltb 0 x then Infinity s
  else if Rltb x 0 then Infinity (negb s)
  else NaN.

Definition mul (a b : rnum) : rnum :=
  match a, b with
  | Fin x, Fin y => Fin (x * y)
  | Infinity s, Fin x | Fin x, Infinity s => scaleInf s x
  | Infinity s, Infinity t => Infinity (xorb s t)
  | _, _ => NaN
  end.

(** [a / b].  Zero has no sign here: a nonzero [x] over zero is the
    infinity of the sign of [x]. *)
Definition div (a b : rnum) : rnum :=
  match a, b with
  | Fin x, Fin y =>
      if Rltb y 0 || Rltb 0 y then Fin (x / y) else scaleInf false x
  | Fin _, Infinity _ => Fin 0
  | Infinity s, Fin y => if Rltb y 0 then Infinity (negb s) else Infinity s
  | _, _ => NaN
  end.

(** [a ** n] for a literal exponent [n >= 1]. *)
Fixpoint pow (a : rnum) (n : nat) : rnum :=
  match n with
  | O => Fin 1
  | S O => a
  | S n' => mul a (pow a n')
  end.

(** [Math.sqrt]. *)
Definition sqrt (a : rnum) : rnum :=
  match a with
  | Fin x => if Rltb x 0 then NaN else Fin (R_sqrt.sqrt x)
  | Infinity false => Infinity false
  | _ => NaN
  end.

Definition PI : rnum := Fin Rtrigo1.PI.

(** [Math.atan]. *)
Definition atan (a : rnum) : rnum :=
  match a with
  | Fin x => Fin (Ratan.atan x)
  | Infinity false => Fin (Rtrigo1.PI / 2)
  | Infinity true => Fin (- (Rtrigo1.PI / 2))
  | NaN => NaN
  end.

(** [Math.atan2(y, x)] on reals. *)
Definition Ratan2 (y x : R) : R :=
  if Rltb 0 x then Ratan.atan (y / x)
  else if Rltb x 0 then
    if Rltb y 0 then Ratan.atan (y / x) - Rtrigo1.PI
    else Ratan.atan (y / x) + Rtrigo1.PI
  else if Rltb 0 y then Rtrigo1.PI / 2
  else if Rltb y 0 then - (Rtrigo1.PI / 2)
  else 0.

Definition signed (s : bool) (x : R) : R := if s then - x else x.

Definition atan2 (y x : rnum) : rnum :=
  match y, x with
  | Fin y, Fin x => Fin (Ratan2 y x)
  | Fin y, Infinity false => Fin 0
  | Fin y, Infinity true => Fin (signed (Rltb y 0) Rtrigo1.PI)
  | Infinity s, Fin _ => Fin (signed s (Rtrigo1.PI / 2))
  | Infinity s, Infinity false => Fin (signed s (Rtrigo1.PI / 4))
  | Infinity s, Infinity true => Fin (signed s (3 * Rtrigo1.PI / 4))
  | _, _ => NaN
  end.

(** [Math.hypot(a, b)]: an infinite argument wins over not-a-number. *)
Definition hypot (a b : rnum) : rnum :=
  match a, b with
  | Infinity _, _ | _, Infinity _ => Infinity false
  | Fin x, Fin y => Fin (R_sqrt.sqrt (x * x + y * y))
  | _, _ => NaN
  end.

Definition sin (a : rnum) : rnum :=
  match a with Fin x => Fin (Rtrigo_def.sin x) | _ => NaN end.

Definition cos (a : rnum) : rnum :=
  match a with Fin x => Fin (Rtrigo_def.cos x) | _ => NaN end.

(** [Math.atanh]: [ln ((1 + x) / (1 - x)) / 2] inside (-1, 1), the
    infinities at the ends. *)
Definition atanh (a : rnum) : rnum :=
  match a with
  | Fin x =>
      if Rltb x (-1) || Rltb 1 x then NaN
      else if Rltb (-1) x then
        if Rltb x 1 then Fin (ln ((1 + x) / (1 - x)) / 2)
        else Infinity false
      else Infinity true
  | _ => NaN
  end.

(** [Math.abs]. *)
Definition abs (a : rnum) : rnum :=
  match a with
  | Fin x => Fin (Rabs x)
  | Infinity _ => Infinity false
  | NaN => NaN
  end.

(** [Math.round]: the integer nearest, halves upwards. *)
Definition round (a : rnum) : rnum :=
  match a with
  | Fin x => Fin (IZR (Int_part (x + / 2)))
  | _ => a
  end.

(** [a < b] and [a > b]: false when either side is not-a-number. *)
Definition ltb (a b : rnum) : bool :=
  match a, b with
  | Fin x, Fin y => Rltb x y
  | Infinity true, Fin _ | Fin _, Infinity false => true
  | Infinity true, Infinity false => true
  | _, _ => false
  end.

Definition gtb (a b : rnum) : bool := ltb b a.

(** [a != b] on numbers: true when either side is not-a-number. *)
Definition neqb (a b : rnum) : bool :=
  match a, b with
  | NaN, _ | _, NaN => true
  | _, _ => ltb a b || ltb b a
  end.

(** [Number.isNaN], which [isNaN] agrees with on numbers. *)
Definition isNaN (a : rnum) : bool :=
  match a with NaN => true | _ => false end.

(** The same number, read on the real side. *)
Definition ofQ (a : qnum) : rnum :=
  match a with
  | QNaN => NaN
  | QFin q => Fin (Q2R q)
  end.

End RNum.

Declare Scope rnum_scope.
Delimit Scope rnum_scope with rn.
Infix "+" := RNum.add : rnum_scope.
Infix "-" := RNum.sub : rnum_scope.
Infix "*" := RNum.mul : rnum_scope.
Infix "/" := RNum.div : rnum_scope.
Infix "**" := RNum.pow (at level 30, right associativity) : rnum_scope.

(** A literal of the source. *)
Definition lit (z : Z) : rnum := Fin (IZR z).

(* ================================================================== *)
(** ** Configuration: [globalData], the weapons and [MAPS] *)

(** A value that [globalData.activeMap] may hold. *)
Inductive jsval : Type :=
| VUndefined
| VNull
| VBool (b : bool)
| VNumber (n : qnum)
| VString (s : jsstring).

(** [!v] is [negb (truthy v)]. *)
Definition truthy (v : jsval) : bool :=
  match v with
  | VUndefined | VNull => false
  | VBool b => b
  | VNumber QNaN => false
  | VNumber (QFin q) => negb (Qeq_bool q 0)
  | VString s => negb (length s =? 0)%nat
  end.

Definition qnum_eqb (a b : qnum) : bool :=
  match a, b with
  | QFin x, QFin y => Qeq_bool x y
  | _, _ => false
  end.

(** [index == v] for an array index. *)
Definition looseEqIndex (index : Z) (v : jsval) : bool :=
  match v with
  | VUndefined | VNull => false
  | VBool b => qnum_eqb (QNum.ofZ index) (QNum.ofZ (if b then 1 else 0))
  | VNumber n => qnum_eqb (QNum.ofZ index) n
  | VString s => qnum_eqb (QNum.ofZ index) (Number s)
  end.

Inductive AngleType : Type := high | low.

(** A weapon of the configuration. *)
Record Weapon : Type := mkWeapon {
  name : jsstring;
  gravityScale : rnum;
  angleType : AngleType;
  unit : jsstring;
  minElevation : rnum * rnum;
  moa : rnum;
  getVelocity : rnum -> rnum
}.

(** Modelled from the spec: the weapon's method [getAngleType], declared
    with the weapons outside this module; the angle mode is encoded as a
    multiplier, -1 for the high arc and +1 for the low arc. *)
Definition getAngleType (w : Weapon) : rnum :=
  match angleType w with
  | high => lit (-1)
  | low => lit 1
  end.

(** An entry of [MAPS]. *)
Record MapEntry : Type := mkMapEntry {
  size : rnum;
  offset : rnum * rnum;
  scaling : rnum
}.

Record GlobalData : Type := mkGlobalData {
  gravity : rnum;
  activeWeapon : Weapon;
  activeMap : jsval;
  debugActive : bool;
  canvasSize : rnum
}.

(** The four channels read by [getImageData(x, y, 1, 1).data]. *)
Record Pixel : Type := mkPixel { red : Z; green : Z; blue : Z; alpha : Z }.

(** What surrounds a call: the configuration, the map list and the
    content of the heightmap canvas. *)
Record Env : Type := mkEnv {
  globalData : GlobalData;
  MAPS : list MapEntry;
  imageData : rnum -> rnum -> Pixel
}.

(** [MAPS.find((elem, index) => index == globalData.activeMap)], from
    index [index] on; [None] is [undefined]. *)
Fixpoint findMap (maps : list MapEntry) (index : Z) (v : jsval)
  : option MapEntry :=
  match maps with
  | [] => None
  | elem :: rest =>
      if looseEqIndex index v then Some elem else findMap rest (index + 1) v
  end.

(* ================================================================== *)
(** ** Geometry and unit conversions *)

Definition ofQ (p : LatLng qnum) : LatLng rnum :=
  {| lat := RNum.ofQ (lat p); lng := RNum.ofQ (lng p) |}.

(** [getBearing(a, b)]. *)
Definition getBearing (a b : LatLng rnum) : rnum :=
  let bearing :=
    (RNum.atan2 (lng b - lng a) (lat b - lat a) * lit 180 / RNum.PI + lit 90)%rn in
  if RNum.ltb bearing (lit 0) then (bearing + lit 360)%rn else bearing.

Definition degToRad (deg : rnum) : rnum := ((deg * RNum.PI) / lit 180)%rn.
Definition radToDeg (rad : rnum) : rnum := ((rad * lit 180) / RNum.PI)%rn.
Definition degToMil (deg : rnum) : rnum := (deg / (lit 360 / lit 6400))%rn.
Definition radToMil (rad : rnum) : rnum := degToMil (radToDeg rad).

(** [getDist(a, b)]. *)
Definition getDist (a b : LatLng rnum) : rnum :=
  RNum.hypot (lat a - lat b)%rn (lng a - lng b)%rn.

(* ================================================================== *)
(** ** Ballistic solver *)

(** [getElevation(dist, vDelta, vel)]. *)
Definition getElevation (g : GlobalData) (dist vDelta vel : rnum) : rnum :=
  let gravity := (gravity g * gravityScale (activeWeapon g))%rn in
  let P1 :=
    RNum.sqrt
      (vel ** 4 - gravity * (gravity * dist ** 2 + lit 2 * vDelta * vel ** 2))%rn in
  RNum.atan
    ((vel ** 2 - (P1 * getAngleType (activeWeapon g))) / (gravity * dist))%rn.

(** [getVerticalSpread(angle, vel)]. *)
Definition getVerticalSpread (g : GlobalData) (angle vel : rnum) : rnum :=
  let moa := degToRad ((moa (activeWeapon g) / lit 2) / lit 60)%rn in
  let gravity := (gravity g * gravityScale (activeWeapon g))%rn in
  let verticalSpread1 :=
    ((vel ** 2 * RNum.sin (lit 2 * (angle + moa))) / gravity)%rn in
  let verticalSpread2 :=
    ((vel ** 2 * RNum.sin (lit 2 * (angle - moa))) / gravity)%rn in
  let totalSpread := RNum.abs (verticalSpread2 - verticalSpread1)%rn in
  if RNum.isNaN totalSpread then lit 0 else totalSpread.

(** [getProjectilePathDistance(angle, velocity, gravity)]. *)
Definition getProjectilePathDistance (angle velocity gravity : rnum) : rnum :=
  let p1 := (velocity ** 2 / gravity)%rn in
  let p2 :=
    (RNum.sin angle + RNum.cos angle ** 2 * RNum.atanh (RNum.sin angle))%rn in
  RNum.abs (p1 * p2)%rn.

(** [getHorizontalSpread(angle, velocity, gravity)]. *)
Definition getHorizontalSpread (g : GlobalData) (angle velocity gravity : rnum)
  : rnum :=
  let MOA := (moa (activeWeapon g) / lit 60)%rn in
  let p1 :=
    (lit 2 * RNum.PI * getProjectilePathDistance angle velocity gravity)%rn in
  let p2 := ((MOA / lit 360) * p1)%rn in
  if RNum.isNaN p2 then lit 0 else p2.

Record EllipseParams : Type := mkEllipseParams {
  semiMajorAxis : rnum;
  semiMinorAxis : rnum;
  ellipseAngle : rnum
}.

Record ElevationWithEllipse : Type := mkElevationWithEllipse {
  elevationAngle : rnum;
  ellipseParams : EllipseParams
}.

(** [getElevationWithEllipseParams(dist, vDelta, vel)]. *)
Definition getElevationWithEllipseParams (g : GlobalData)
    (dist vDelta vel : rnum) : ElevationWithEllipse :=
  let gravity := (gravity g * gravityScale (activeWeapon g))%rn in
  let P1 :=
    RNum.sqrt
      (vel ** 4 - gravity * (gravity * dist ** 2 + lit 2 * vDelta * vel ** 2))%rn in
  let angle :=
    RNum.atan
      ((vel ** 2 - (P1 * getAngleType (activeWeapon g))) / (gravity * dist))%rn in
  let ellipseParams :=
    if RNum.neqb (moa (activeWeapon g)) (lit 0) then
      {| semiMajorAxis := getHorizontalSpread g angle vel gravity;
         semiMinorAxis := getVerticalSpread g angle vel;
         ellipseAngle := (angle * (lit 180 / RNum.PI))%rn |}
    else
      {| semiMajorAxis := lit 0;
         semiMinorAxis := lit 0;
         ellipseAngle := lit 0 |} in
  {| elevationAngle := angle; ellipseParams := ellipseParams |}.

(* ================================================================== *)
(** ** Effects: what a call does to the page, in program order *)

Inductive field : Type := mortar | target.

(** The functions whose calls the trace records. *)
Inductive callee : Type :=
| FgetPos | FgetHeight | FgetDist | FgetBearing | FgetVelocity | FgetElevation.

(** The messages of [showError]:
    "Invalid mortar and target", "Invalid mortar", "Invalid target",
    "Mortar is out of map", "Target is out of map",
    "Target is out of range : <distance>m" and
    "Target is too close : <distance>m". *)
Inductive message : Type :=
| InvalidMortarAndTarget
| InvalidMortar
| InvalidTarget
| MortarOutOfMap
| TargetOutOfMap
| TargetOutOfRange (distance : rnum)
| TargetTooClose (distance : rnum).

Inductive event : Type :=
| EvResetCalc
| EvFormatInput (which : field) (formatted : option jsstring)
| EvImprecise
| EvSetCursor
| EvCall (f : callee)
| EvGetContext
| EvGetImageData (x y : rnum)
| EvDebugLog
| EvFillRect (x y : rnum)
| EvShowError (msg : message) (issue : option field)
| EvInsertCalc (bearing elevation distance vel height : rnum).

(** A computation: the events it performed, then its value or what it
    threw. *)
Definition M (A : Type) : Type := list event * result A.

Definition ret {A} (a : A) : M A := ([], Ok a).

Definition throw {A} (e : exn) : M A := ([], Throw e).

Definition bind {A B} (m : M A) (k : A -> M B) : M B :=
  match m with
  | (t, Ok a) => let (t', r) := k a in (t ++ t', r)
  | (t, Throw e) => (t, Throw e)
  end.

Definition emit (e : event) : M Datatypes.unit := ([e], Ok tt).

Definition liftResult {A} (r : result A) : M A := ([], r).

Definition trace {A} (m : M A) : list event := fst m.
Definition outcome {A} (m : M A) : result A := snd m.

Notation "x <- m ;; k" := (bind m (fun x => k))
  (at level 61, m at next level, right associativity).
Notation "m ;; k" := (bind m (fun _ => k))
  (at level 61, right associativity).

(* ================================================================== *)
(** ** Height lookup *)

(** [getOffsetLatLng(pos)]: reading [.size] of a map that [find] did not
    find throws. *)
Definition getOffsetLatLng (env : Env) (pos : LatLng rnum)
  : result (LatLng rnum) :=
  let g := globalData env in
  match findMap (MAPS env) 0 (activeMap g) with
  | None => Throw TypeError
  | Some m =>
      let mapScale := (canvasSize g / size m)%rn in
      Ok {| lat := ((lat pos + fst (offset m) * mapScale) * mapScale)%rn;
            lng := ((lng pos + snd (offset m) * mapScale) * mapScale)%rn |}
  end.

(** What [getHeight] returns: a number, ["AERROR"] or ["BERROR"]. *)
Inductive height : Type :=
| HNum (h : rnum)
| AERROR
| BERROR.

Definition getImageData (env : Env) (x y : rnum) : M Pixel :=
  emit (EvGetImageData x y) ;; ret (imageData env x y).

(** The block run when [globalData.debug.active]: console lines, and two
    marks painted on the canvas after both reads. *)
Definition debugHeightmap (env : Env) (AOffset BOffset : LatLng rnum) : M Datatypes.unit :=
  if debugActive (globalData env) then
    emit EvDebugLog ;;
    emit (EvFillRect (lat AOffset) (lng AOffset)) ;;
    emit (EvFillRect (lat BOffset) (lng BOffset))
  else ret tt.

(** [getHeight(a, b)]. *)
Definition getHeight (env : Env) (a b : LatLng rnum) : M height :=
  let g := globalData env in
  emit EvGetContext ;;
  if negb (truthy (activeMap g)) then ret (HNum (lit 0))
  else
    AOffset <- liftResult (getOffsetLatLng env a) ;;
    BOffset <- liftResult (getOffsetLatLng env b) ;;
    Aheight <- getImageData env (RNum.round (lat AOffset)) (RNum.round (lng AOffset)) ;;
    Bheight <- getImageData env (RNum.round (lat BOffset)) (RNum.round (lng BOffset)) ;;
    debugHeightmap env AOffset BOffset ;;
    if (blue Aheight =? 0) && (red Aheight =? 0) then ret AERROR
    else if (blue Bheight =? 0) && (red Bheight =? 0) then ret BERROR
    else
      match findMap (MAPS env) 0 (activeMap g) with
      | None => throw TypeError
      | Some m =>
          let Aheight := (lit (255 + red Aheight - blue Aheight) * scaling m)%rn in
          let Bheight := (lit (255 + red Bheight - blue Bheight) * scaling m)%rn in
          ret (HNum (Bheight - Aheight)%rn)
      end.

(* ================================================================== *)
(** ** The solve operation of the classic UI *)

(** [s === t] on strings. *)
Fixpoint streq (s t : jsstring) : bool :=
  match s, t with
  | [], [] => true
  | c :: s', d :: t' => (c =? d) && streq s' t'
  | _, _ => false
  end.

Definition showError (msg : message) (issue : option field) : M Datatypes.unit :=
  emit (EvShowError msg issue).

(** What [shoot] returns: [1] on every rejection, nothing otherwise. *)
Inductive retval : Type := Return1 | ReturnUndefined.

(** A call of one of the recorded functions. *)
Definition call {A} (f : callee) (m : M A) : M A := emit (EvCall f) ;; m.

(** The conversion of the solved angle to the weapon's unit. *)
Definition convertElevation (w : Weapon) (elevation : rnum) : rnum :=
  if streq (unit w) (js "mil") then radToMil elevation
  else
    let elevation := radToDeg elevation in
    if streq (name w) (js "Technical") then (elevation - lit 5)%rn
    else elevation.

(** [shoot()], [a] and [b] being the values of the mortar and target
    inputs. *)
Definition shoot (env : Env) (a b : jsstring) : M retval :=
  let g := globalData env in
  let w := activeWeapon g in
  emit EvResetCalc ;;
  emit (EvFormatInput mortar (formatKeyPad a)) ;;
  emit (EvFormatInput target (formatKeyPad b)) ;;
  if (length a <? 3)%nat || (length b <? 3)%nat then
    emit EvImprecise ;; ret Return1
  else
    emit EvSetCursor ;;
    aPos <- call FgetPos (liftResult (getPos a)) ;;
    bPos <- call FgetPos (liftResult (getPos b)) ;;
    let aPos := ofQ aPos in
    let bPos := ofQ bPos in
    if RNum.isNaN (lng aPos) || RNum.isNaN (lng bPos) then
      (if RNum.isNaN (lng aPos) && RNum.isNaN (lng bPos) then
         showError InvalidMortarAndTarget None
       else if RNum.isNaN (lng aPos) then
         showError InvalidMortar (Some mortar)
       else
         showError InvalidTarget (Some target)) ;;
      ret Return1
    else
      height <- call FgetHeight (getHeight env aPos bPos) ;;
      match height with
      | AERROR => showError MortarOutOfMap (Some mortar) ;; ret Return1
      | BERROR => showError TargetOutOfMap (Some target) ;; ret Return1
      | HNum height =>
          distance <- call FgetDist (ret (getDist aPos bPos)) ;;
          bearing <- call FgetBearing (ret (getBearing aPos bPos)) ;;
          vel <- call FgetVelocity (ret (getVelocity w distance)) ;;
          elevation <- call FgetElevation (ret (getElevation g distance height vel)) ;;
          let elevation := convertElevation w elevation in
          if RNum.isNaN elevation then
            showError (TargetOutOfRange distance) (Some target) ;; ret Return1
          else if RNum.gtb elevation (snd (minElevation w)) then
            showError (TargetTooClose distance) (Some target) ;; ret Return1
          else
            emit (EvInsertCalc bearing elevation distance vel height) ;;
            ret ReturnUndefined
      end.

(* ================================================================== *)
(** ** More of the utilities module: [isMultiple], the
    solve of the map UI, the clipboard and the saved results *)

(** [a >= b] on numbers: false when either side is not-a-number. *)
Definition geb (a b : rnum) : bool :=
  match a, b with
  | NaN, _ | _, NaN => false
  | _, _ => negb (RNum.ltb a b)
  end.

(** [isMultiple(a, b)]; the literal [0.0001] is read as the real
    1/10000. *)
Definition isMultiple (a b : rnum) : bool :=
  let t := (b / a)%rn in
  let r := RNum.round t in
  let d := if geb t r then (t - r)%rn else (r - t)%rn in
  RNum.ltb d (Fin (1 / 10000)).

(** What [getCalcFromUI] returns.  [calcBearing] and [calcDistance] are
    the numbers that the source prints with [toFixed(1)] and
    [toFixed(0)]; [calcElevation] is [None] for the string "---" and
    otherwise the number printed with
    [toFixed(activeWeapon.elevationPrecision)]. *)
Record Calc : Type := mkCalc {
  calcBearing : rnum;
  calcDistance : rnum;
  calcElevation : option rnum;
  calcEllipseParams : EllipseParams
}.

(** [L.latLng([p.lng * mapScale, p.lat * -mapScale])], for coordinates
    that are numbers: [L.latLng] throws on a coordinate that is
    not-a-number, and the statements below keep to finite markers and
    positive sizes. *)
Definition uiLatLng (mapScale : rnum) (p : LatLng rnum) : LatLng rnum :=
  {| lat := (lng p * mapScale)%rn; lng := (lat p * RNum.neg mapScale)%rn |}.

(** What the arithmetic of the solver makes of the value of
    [getHeight]: a number is itself, the strings "AERROR" and "BERROR"
    convert to not-a-number. *)
Definition heightToNumber (h : height) : rnum :=
  match h with
  | HNum x => x
  | AERROR | BERROR => NaN
  end.

(** [getCalcFromUI(a, b)]; [mapSize] is [globalData.mapSize]. *)
Definition getCalcFromUI (env : Env) (mapSize : rnum) (a b : LatLng rnum)
  : M Calc :=
  let g := globalData env in
  let w := activeWeapon g in
  match findMap (MAPS env) 0 (activeMap g) with
  | None => throw TypeError
  | Some m =>
      let mapScale := (size m / mapSize)%rn in
      let a := uiLatLng mapScale a in
      let b := uiLatLng mapScale b in
      height <- getHeight env a b ;;
      let distance := getDist a b in
      let bearing := getBearing a b in
      let vel := getVelocity w distance in
      let results :=
        getElevationWithEllipseParams g distance (heightToNumber height) vel in
      let elevation := convertElevation w (elevationAngle results) in
      ret {| calcBearing := bearing;
             calcDistance := distance;
             calcElevation :=
               if RNum.isNaN elevation
                  || RNum.gtb elevation (snd (minElevation w))
               then None else Some elevation;
             calcEllipseParams := ellipseParams results |}
  end.

(** What [copyCalc] does to the page and to the clipboard. *)
Inductive pageEvent : Type :=
| PgAnimateCopy
| PgCopy (text : jsstring)
| PgSetItem
| PgTooltipEnable
| PgTooltipShow.

(** The separators of the copied line: an arrow (U+279C) and a dash,
    each between two spaces. *)
Definition arrowSep : jsstring := [32; 10140; 32].
Definition dashSep : jsstring := js " - ".

(** [copyCalc(e)].  [ready] is [$(".copy").hasClass("copy")];
    [onDown] and [onUp] tell whether the element clicked has the class
    [fa-sort-amount-down] or [fa-sort-amount-up]; [targetVal],
    [bearingText] and [elevationText] are the texts read from the
    page. *)
Definition copyCalc (w : Weapon) (ready onDown onUp : bool)
    (targetVal bearingText elevationText : jsstring)
  : list pageEvent * retval :=
  if negb ready then ([], Return1)
  else
    let stop :=
      if negb (streq (name w) (js "mortar")) || negb (streq (name w) (js "B-32"))
      then (if onDown || onUp then true else false)
      else false in
    if stop then ([], Return1)
    else
      ([PgAnimateCopy;
        PgCopy (targetVal ++ arrowSep ++ bearingText ++ dashSep ++ elevationText);
        PgSetItem; PgTooltipEnable; PgTooltipShow],
       ReturnUndefined).

(** The list of saved results of the page: its rows, and whether the
    block that holds it has the class [hidden]. *)
Record Saved (row : Type) : Type := mkSaved {
  savedRows : list row;
  savedHidden : bool
}.
Arguments mkSaved {row} _ _.
Arguments savedRows {row} _.
Arguments savedHidden {row} _.

(** [saveCalc()], [r] being the row built from the texts of the page.
    What the function does besides (the width of the new input, the
    animation, the tooltip) does not touch the list. *)
Definition saveCalc {row : Type} (st : Saved row) (r : row) : Saved row :=
  let rows :=
    if (length (savedRows st) =? 4)%nat then tl (savedRows st)
    else savedRows st in
  {| savedRows := rows ++ [r]; savedHidden := false |}.

(** The rows without the one at index [i]. *)
Fixpoint removeRow {row : Type} (i : nat) (rows : list row) : list row :=
  match rows, i with
  | [], _ => []
  | _ :: rest, O => rest
  | r :: rest, S i' => r :: removeRow i' rest
  end.

(** [RemoveSaves(a)], [a] being inside the row of index [i]: the block
    is hidden when one row is left, then the row is removed. *)
Definition RemoveSaves {row : Type} (st : Saved row) (i : nat) : Saved row :=
  let hidden :=
    if (length (savedRows st) =? 1)%nat then true else savedHidden st in
  {| savedRows := removeRow i (savedRows st); savedHidden := hidden |}.

(** At most four rows, and hidden exactly when there is none. *)
Definition savedOk {row : Type} (st : Saved row) : bool :=
  (length (savedRows st) <=? 4)%nat
  && Bool.eqb (savedHidden st) (length (savedRows st) =? 0)%nat.

(** The popup that shows the keypad under the mouse: closed, or open at
    a position with a content. *)
Inductive popup : Type :=
| PopupClosed
| PopupOpen (lat lng : Q) (content : jsstring).

(** [_handleMouseMove(e)] of the map widget, [lat] and [lng] being those
    of [e.latlng]; [roundedZoom] is [Math.round(this.getZoom())]. *)
Definition handleMouseMove (tilesSize mapToGameScale roundedZoom : Q)
    (lat lng : Q) : popup :=
  if Qlt_bool 0 lat || Qlt_bool lat (- tilesSize)
     || Qlt_bool lng 0 || Qlt_bool tilesSize lng
  then PopupClosed
  else
    PopupOpen lat lng
      (js "<p>" ++ minimap_getKP mapToGameScale (- lat) lng None roundedZoom
       ++ js "</p>").

(* ================================================================== *)
(** ** Vocabulary of the statements *)

(** The spec's planar point [{x, y}].  Its bearing formula takes
    [atan2 (b.y - a.y, b.x - a.x)] where the code takes
    [atan2 (b.lng - a.lng, b.lat - a.lat)], and its decoder puts the
    letter's column in [lat]: [x] is [lat] and [y] is [lng]. *)
Definition point (x y : R) : LatLng rnum := {| lat := Fin x; lng := Fin y |}.

(** The multiplier of the weapon's angle mode, as a real. *)
Definition angleSign (w : Weapon) : R :=
  match angleType w with
  | high => (-1)%R
  | low => 1%R
  end.

(** [f] is called in the course of [m]. *)
Definition calls {A} (f : callee) (m : M A) : Prop := In (EvCall f) (trace m).

(** The events that close a solve: an error shown, the placeholders of an
    imprecise input, or a result inserted. *)
Definition isVerdict (e : event) : bool :=
  match e with
  | EvShowError _ _ | EvImprecise | EvInsertCalc _ _ _ _ _ => true
  | _ => false
  end.

Definition verdicts (t : list event) : list event := filter isVerdict t.

(** [m] shows the error [msg] on [issue], shows nothing else, and
    returns 1. *)
Definition reports (msg : message) (issue : option field) (m : M retval) : Prop :=
  verdicts (trace m) = [EvShowError msg issue] /\ outcome m = Ok Return1.

(** A configuration to run the statements on: the mortar, and a map list
    whose first entry is the active one. *)
Definition sampleWeapon : Weapon :=
  {| name := js "mortar";
     gravityScale := lit 1;
     angleType := high;
     unit := js "mil";
     minElevation := (lit 800, lit 1579);
     moa := lit 50;
     getVelocity := fun _ => Fin 110 |}.

Definition sampleMap : MapEntry :=
  {| size := lit 4017; offset := (lit 0, lit 0); scaling := lit 1 |}.

Definition sampleGlobalData : GlobalData :=
  {| gravity := Fin (98 / 10);
     activeWeapon := sampleWeapon;
     activeMap := VNumber (QFin 0);
     debugActive := false;
     canvasSize := lit 500 |}.

Definition sampleEnv : Env :=
  {| globalData := sampleGlobalData;
     MAPS := [sampleMap];
     imageData := fun _ _ => {| red := 0; green := 0; blue := 0; alpha := 0 |} |}.

(** The precision that the switch of [getKP] looks at. *)
Definition effectivePrecision (precision : option Q) (zoom : Q) : Q :=
  if notPrecision precision then zoom
  else match precision with Some p => p | None => zoom end.

(** The number of sub-keypad digits in the string that the switch of
    [getKP] returns. *)
Definition subKeypadCount (precision : Q) : nat :=
  if Qeq_bool precision 0 then 0
  else if Qeq_bool precision 1 then 0
  else if Qeq_bool precision 2 then 0
  else if Qeq_bool precision 3 then 1
  else if Qeq_bool precision 4 then 2
  else if Qeq_bool precision 5 then 3
  else 4.

(** The sub-keypad digit of level [k] in [getKP], [x] being the column
    coordinate and [y] the row coordinate. *)
Definition encodeDigit (x y : Q) (k : nat) : Z :=
  10 - (Z.rem (Qfloor (y / interval k)) 3 + 1) * 3
  + Z.rem (Qfloor (x / interval k)) 3.

(** The string of a letter code, a row number and sub-keypad digits. *)
Definition keypadString (L N : Z) (ds : list Z) : jsstring :=
  fromCharCode L ++ pad N 2 ++ concat (map (fun d => dash :: numToString d) ds).

(** A code unit of a canonical keypad: a digit or an upper-case letter. *)
Definition keypadUnit (c : Z) : Prop := 48 <= c <= 57 \/ 65 <= c <= 90.

(** The dashed form of a head and of single code units. *)
Definition dashed (head : jsstring) (subs : jsstring) : jsstring :=
  head ++ concat (map (fun c => [dash; c]) subs).

(** [n] is the integer [z], with denominator 1. *)
Definition isNumber (n : qnum) (z : Z) : bool :=
  match n with
  | QFin q => (Qnum q =? z) && (Qden q =? 1)%positive
  | QNaN => false
  end.

Definition padCheck (N : Z) : bool :=
  match pad N 2 with
  | [a; b] =>
      (48 <=? a) && (a <=? 57) && (48 <=? b) && (b <=? 57)
      && isNumber (Number [a; b]) N
  | _ => false
  end.

Definition digitCheck (d : Z) : bool :=
  match numToString d with
  | [c] => (49 <=? c) && (c <=? 57) && isNumber (Number [c]) d
  | _ => false
  end.

(** What the loop of [getPos] adds, in units of the interval, for a
    sub-keypad digit [d]. *)
Definition subXof (d : Z) : Q :=
  ((inject_Z d - 1) - 3 * inject_Z (QNum.Qtrunc ((inject_Z d - 1) / 3)))%Q.

Definition subYof (d : Z) : Q :=
  (2 - (inject_Z (Qceiling (inject_Z d / 3)) - 1))%Q.

(** The loop of [getPos] over the digits [ds], from index [i] on. *)
Fixpoint decodeSubs (ds : list Z) (i : nat) (la ln : Q) : Q * Q :=
  match ds with
  | [] => (la, ln)
  | d :: rest =>
      decodeSubs rest (i + 1)
        (la + interval i * subXof d)%Q (ln + interval i * subYof d)%Q
  end.

(** Not-a-number in [la] comes with not-a-number in [ln]. *)
Definition lngPoisoned (la ln : qnum) : Prop :=
  QNum.isNaN la = true -> QNum.isNaN ln = true.

(** An input upper-cased and without its dashes: what [formatKeyPad]
    keeps of it. *)
Definition stripped (kp : jsstring) : jsstring :=
  filter (fun c => negb (c =? dash)) (toUpperCase kp).

(** The column and the row, counted from 0, that [getPos] takes from
    a sub-keypad digit: [subXof] and [subYof] as integers. *)
Definition subColumn (d : Z) : Z := (d - 1) mod 3.
Definition subRow (d : Z) : Z := 3 - (d + 2) / 3.

(** The index of a cell among those of its level, from the index [m]
    of its macro cell and its sub-keypad digits, [f] giving the column
    or the row of a digit. *)
Definition cornerZ (f : Z -> Z) (ds : list Z) (m : Z) : Z :=
  fold_left (fun acc d => 3 * acc + f d) ds m.

(** [pad] returns [size] characters that read back as the last [size]
    digits of [n]. *)
Definition padLastDigits (size : nat) (n : Z) : bool :=
  (length (pad n size) =? size)%nat
  && isNumber (Number (pad n size)) (n mod 10 ^ Z.of_nat size).

(** The verdict that inserts a result. *)
Definition isInsert (e : event) : bool :=
  match e with
  | EvInsertCalc _ _ _ _ _ => true
  | _ => false
  end.

(** [a] is a number that is not negative; positive infinity is one. *)
Definition nonNegative (a : rnum) : bool :=
  negb (RNum.isNaN a) && negb (RNum.ltb a (lit 0)).

(** Every code unit is an ASCII character.  On such a string
    [toUpperCase] above is JavaScript's, which maps other letters too. *)
Definition asciiOnly (s : jsstring) : Prop := Forall (fun c => 0 <= c < 128) s.



(* ================================================================== *)
(** * Properties *)

(* ------------------------------------------------------------------ *)
(** ** The encoder at fixed inputs *)

Section EncoderExamples.

Local Open Scope Q_scope.

Example getKP_macro_corner :
  forall zoom, getKP 299 299 (Some 3) zoom = js "A01-3".
Proof. intros zoom. reflexivity. Qed.

Example getPos_A01 :
  exists la ln, getPos (js "A01") = Ok {| lat := QFin la; lng := QFin ln |}
                /\ la == 150 /\ ln == 150.
Proof. do 2 eexists. split; [reflexivity|]. split; reflexivity. Qed.

Example getKP_negative :
  forall precision zoom, getKP (-1) 5 precision zoom = js "XXX-X-X".
Proof. intros precision zoom. reflexivity. Qed.

(** C4, as the spec states it, fails: at precision 5 the encoder
    returns three sub-digits, which is not the string of four. *)
Lemma getKP_origin_precision5_not_four_digits :
  getKP 0 0 (Some 5) 0 = js "A01-7-7-7"
  /\ js "A01-7-7-7" <> js "A01-7-7-7-7".
Proof. split; [reflexivity | discriminate]. Qed.

(** C4, amended: [getKP(0, 0, 5)] is "A01-7-7-7", the macro cell "A01"
    followed by three sub-digits, each 7, whatever the zoom; the string
    "A01-7-7-7-7" of four sub-digits is what precision 6 returns. *)
Theorem getKP_origin_precision5 :
  forall zoom,
    getKP 0 0 (Some 5) zoom = js "A01-7-7-7"
    /\ getKP 0 0 (Some 6) zoom = js "A01-7-7-7-7".
Proof. intros zoom. split; reflexivity. Qed.

(** C8: an explicit precision 0 is taken for a missing one, and the
    result follows the zoom of the map: "A01-7-7-7" at zoom 5, "A01"
    at zoom 0. *)
Theorem getKP_precision0_follows_zoom :
  getKP 0 0 (Some 0) 5 = js "A01-7-7-7"
  /\ getKP 0 0 (Some 0) 0 = js "A01".
Proof. split; reflexivity. Qed.

(** The map widget's [getKP] returns the macro cell at an explicit
    precision 0, whatever the zoom. *)
Lemma minimap_getKP_precision0 :
  forall roundedZoom, minimap_getKP 1 0 0 (Some 0) roundedZoom = js "A01".
Proof. intros roundedZoom. reflexivity. Qed.

End EncoderExamples.

(* ------------------------------------------------------------------ *)
(** ** Decoding the empty string *)

(** C6, as the spec states it, fails: [getPos] of the empty string
    throws. *)
Lemma getPos_empty_throws : getPos emptyString = Throw TypeError.
Proof. reflexivity. Qed.

Lemma getPos_nonempty (kp : jsstring) :
  kp <> [] -> exists p, getPos kp = Ok p.
Proof.
  intros Hne. unfold getPos, formatKeyPad.
  destruct kp as [|c kp]; [congruence|]. cbn [length Nat.eqb].
  destruct (getPos_loop _ _ _ _) as [early|[la ln]]; eexists; reflexivity.
Qed.

(** C6, amended: [formatKeyPad] of the empty string returns [undefined]
    and raises nothing; [getPos] of the empty string throws a TypeError
    (it calls [split] on that [undefined]), and the empty string is the
    only input on which [getPos] throws. *)
Theorem formatKeyPad_empty_getPos_throws :
  formatKeyPad emptyString = None
  /\ getPos emptyString = Throw TypeError
  /\ forall kp, getPos kp = Throw TypeError <-> kp = [].
Proof.
  split; [reflexivity|]. split; [reflexivity|].
  intros kp. split.
  - intros Hthrow. destruct kp as [|c kp]; [reflexivity|].
    destruct (getPos_nonempty (c :: kp)) as [p Hp]; [discriminate|].
    congruence.
  - intros ->. reflexivity.
Qed.

(* ------------------------------------------------------------------ *)
(** ** The letter of the macro cell *)

Section Letter.

Local Open Scope Q_scope.

Lemma interval_0 : interval 0 == 300.
Proof. reflexivity. Qed.

Lemma Qlt_bool_false (x y : Q) : y <= x -> Qlt_bool x y = false.
Proof.
  intros H. unfold Qlt_bool. apply negb_false_iff, Qle_bool_iff, H.
Qed.

(** A lower bound on the macro index is a lower bound on the
    coordinate. *)
Lemma Qfloor_div_lower (x : Q) (k : Z) :
  (k <= Qfloor (x / 300))%Z -> inject_Z k * 300 <= x.
Proof.
  intros Hk.
  assert (H1 : inject_Z k <= inject_Z (Qfloor (x / 300)))
    by (rewrite <- Zle_Qle; exact Hk).
  pose proof (Qfloor_le (x / 300)) as H2.
  assert (H3 : inject_Z k <= x / 300) by lra.
  apply (Qmult_le_compat_r _ _ 300) in H3; [|lra].
  assert (H4 : x / 300 * 300 == x) by field.
  rewrite H4 in H3. exact H3.
Qed.

(** Every branch of [getKP] past the bounds test starts with the
    letter. *)
Lemma getKP_starts_with_letter (lat lng : Q) (precision : option Q) (zoom : Q) :
  0 <= lat -> 0 <= lng ->
  exists rest,
    getKP lat lng precision zoom =
    (let kpCharCode := (65 + Qfloor (lng / interval 0))%Z in
     if (kpCharCode >? 90)%Z then fromCharCode (kpCharCode + 6)
     else fromCharCode kpCharCode) ++ rest.
Proof.
  intros Hlat Hlng. unfold getKP.
  rewrite (Qlt_bool_false lng 0 Hlng), (Qlt_bool_false lat 0 Hlat).
  cbn [orb]. cbv zeta.
  repeat match goal with
         | |- context [if Qeq_bool ?p ?k then _ else _] =>
             destruct (Qeq_bool p k)
         end;
    rewrite <- ?app_assoc; eexists; reflexivity.
Qed.

(** At an explicit precision 1 or 2 the string is the macro cell alone,
    whatever the zoom. *)
Lemma getKP_precision_1_2 (lat lng p zoom : Q) :
  p == 1 \/ p == 2 -> 0 <= lat -> 0 <= lng ->
  getKP lat lng (Some p) zoom =
  (let kpCharCode := (65 + Qfloor (lng / interval 0))%Z in
   if (kpCharCode >? 90)%Z then fromCharCode (kpCharCode + 6)
   else fromCharCode kpCharCode)
  ++ pad (Qfloor (lat / interval 0) + 1) 2.
Proof.
  intros Hp Hlat Hlng. unfold getKP.
  rewrite (Qlt_bool_false lng 0 Hlng), (Qlt_bool_false lat 0 Hlat).
  cbn [orb notPrecision]. cbv zeta.
  assert (H0 : Qeq_bool p 0 = false).
  { destruct (Qeq_bool p 0) eqn:E; [|reflexivity].
    apply Qeq_bool_iff in E. destruct Hp as [Hp|Hp]; rewrite Hp in E; discriminate. }
  rewrite H0. cbv iota. rewrite H0.
  destruct Hp as [Hp|Hp].
  - apply Qeq_bool_iff in Hp. rewrite Hp. reflexivity.
  - destruct (Qeq_bool p 1); [reflexivity|].
    apply Qeq_bool_iff in Hp. rewrite Hp. reflexivity.
Qed.

(** C7: when the macro column index [floor(x / 300)] is 26 or more,
    the string that [getKP] returns starts with the letter at codepoint
    [65 + floor(x / 300) + 6] (the code unit that [String.fromCharCode]
    gives for it, which is that number itself while it is below 2^16);
    at index 26 this is ["a"].  [x] is the second argument, [lng]; the
    first one must not be negative, or the sentinel is returned. *)
Theorem getKP_letter_wrap (lat lng : Q) (precision : option Q) (zoom : Q) :
  0 <= lat ->
  (26 <= Qfloor (lng / 300))%Z ->
  exists rest,
    getKP lat lng precision zoom
    = fromCharCode (65 + Qfloor (lng / 300) + 6) ++ rest
    /\ ((Qfloor (lng / 300) < 65465)%Z ->
        fromCharCode (65 + Qfloor (lng / 300) + 6)
        = [(65 + Qfloor (lng / 300) + 6)%Z])
    /\ (Qfloor (lng / 300) = 26%Z ->
        fromCharCode (65 + Qfloor (lng / 300) + 6) = js "a").
Proof.
  intros Hlat Hidx.
  assert (Hlng : 0 <= lng).
  { pose proof (Qfloor_div_lower lng 26 Hidx) as H.
    change (inject_Z 26) with 26 in H. lra. }
  destruct (getKP_starts_with_letter lat lng precision zoom Hlat Hlng)
    as [rest Hrest].
  cbv zeta in Hrest.
  assert (Hfl : Qfloor (lng / interval 0) = Qfloor (lng / 300)).
  { apply Qfloor_comp. rewrite interval_0. reflexivity. }
  rewrite Hfl in Hrest.
  assert (Hgt : (65 + Qfloor (lng / 300) >? 90)%Z = true).
  { apply Z.gtb_lt. lia. }
  rewrite Hgt in Hrest.
  exists rest. split; [exact Hrest|]. split.
  - intros Hup. unfold fromCharCode. rewrite Z.mod_small by lia. reflexivity.
  - intros ->. reflexivity.
Qed.

(** The theorem at the first column past "Z", [x = 7800]. *)
Lemma getKP_letter_wrap_witness :
  exists rest,
    getKP 0 7800 (Some 3) 0 = fromCharCode (65 + Qfloor (7800 / 300) + 6) ++ rest
    /\ ((Qfloor (7800 / 300) < 65465)%Z ->
        fromCharCode (65 + Qfloor (7800 / 300) + 6)
        = [(65 + Qfloor (7800 / 300) + 6)%Z])
    /\ (Qfloor (7800 / 300) = 26%Z ->
        fromCharCode (65 + Qfloor (7800 / 300) + 6) = js "a").
Proof.
  apply (getKP_letter_wrap 0 7800 (Some 3) 0).
  - unfold Qle; simpl; lia.
  - vm_compute. discriminate.
Defined.

Example getKP_first_lowercase :
  forall zoom, getKP 0 7800 (Some 1) zoom = js "a01".
Proof. intros zoom. reflexivity. Qed.

End Letter.

(* ------------------------------------------------------------------ *)
(** ** The two solvers *)

(** C9: for the same distance, height difference and velocity, under the
    same configuration, the [elevationAngle] that
    [getElevationWithEllipseParams] returns is the number that
    [getElevation] returns; in particular one is not-a-number exactly
    when the other is. *)
Theorem getElevationWithEllipseParams_elevationAngle :
  forall (g : GlobalData) (dist vDelta vel : rnum),
    elevationAngle (getElevationWithEllipseParams g dist vDelta vel)
    = getElevation g dist vDelta vel
    /\ RNum.isNaN (elevationAngle (getElevationWithEllipseParams g dist vDelta vel))
       = RNum.isNaN (getElevation g dist vDelta vel).
Proof.
  intros g dist vDelta vel.
  assert (H : elevationAngle (getElevationWithEllipseParams g dist vDelta vel)
              = getElevation g dist vDelta vel).
  { unfold getElevationWithEllipseParams, getElevation.
    cbv zeta. cbn [elevationAngle]. reflexivity. }
  split; [exact H | rewrite H; reflexivity].
Qed.

(* ------------------------------------------------------------------ *)
(** ** The elevation solver *)

Section Elevation.

Local Open Scope R_scope.

Lemma Rltb_true (x y : R) : x < y -> RNum.Rltb x y = true.
Proof.
  intros H. unfold RNum.Rltb.
  destruct (Rlt_dec x y); [reflexivity | contradiction].
Qed.

Lemma Rltb_false (x y : R) : y <= x -> RNum.Rltb x y = false.
Proof.
  intros H. unfold RNum.Rltb. destruct (Rlt_dec x y); [lra | reflexivity].
Qed.

(** The solver on finite arguments, with a positive divisor. *)
Lemma getElevation_finite (g : GlobalData) (gr gs dist vDelta vel : R) :
  gravity g = Fin gr -> gravityScale (activeWeapon g) = Fin gs ->
  0 < gr * gs -> 0 < dist ->
  getElevation g (Fin dist) (Fin vDelta) (Fin vel) =
  let G := gr * gs in
  let disc := vel ^ 4 - G * (G * dist ^ 2 + 2 * vDelta * vel ^ 2) in
  if RNum.Rltb disc 0 then NaN
  else Fin (atan ((vel ^ 2 - sqrt disc * angleSign (activeWeapon g))
                  / (G * dist))).
Proof.
  intros Hg Hgs HG Hd. unfold getElevation. rewrite Hg, Hgs.
  cbn [RNum.pow RNum.mul RNum.add RNum.sub RNum.neg lit].
  set (disc := vel ^ 4 - gr * gs * (gr * gs * dist ^ 2 + 2 * vDelta * vel ^ 2)).
  replace (vel * (vel * (vel * vel)) +
           - (gr * gs * (gr * gs * (dist * dist) + 2 * vDelta * (vel * vel))))
    with disc by (unfold disc; ring).
  unfold RNum.sqrt. destruct (RNum.Rltb disc 0) eqn:E; [reflexivity|].
  unfold getAngleType, angleSign.
  assert (Hden : RNum.Rltb (gr * gs * dist) 0
                 || RNum.Rltb 0 (gr * gs * dist) = true).
  { rewrite (Rltb_true 0 (gr * gs * dist)) by nra. apply orb_true_r. }
  destruct (angleType (activeWeapon g));
    cbn [RNum.mul RNum.neg RNum.div RNum.atan lit]; rewrite Hden;
    cbn [RNum.atan]; do 2 f_equal; unfold Rdiv; f_equal; ring.
Qed.

(** C2: for a distance above zero, any height difference and velocity,
    and a positive effective gravity, [getElevation] returns
    not-a-number exactly when the discriminant
    [vel^4 - gravity (gravity dist^2 + 2 vDelta vel^2)] is negative;
    otherwise it returns the arctangent of
    [(vel^2 - sqrt disc * angleType) / (gravity dist)], a finite angle
    strictly between -pi/2 and pi/2.  The solver is a total function:
    it raises nothing in either case. *)
Theorem getElevation_out_of_range (g : GlobalData) (gr gs dist vDelta vel : R) :
  gravity g = Fin gr -> gravityScale (activeWeapon g) = Fin gs ->
  0 < gr * gs -> 0 < dist ->
  let G := gr * gs in
  let disc := vel ^ 4 - G * (G * dist ^ 2 + 2 * vDelta * vel ^ 2) in
  let elevation := getElevation g (Fin dist) (Fin vDelta) (Fin vel) in
  (elevation = NaN <-> disc < 0)
  /\ (0 <= disc ->
      elevation
      = Fin (atan ((vel ^ 2 - sqrt disc * angleSign (activeWeapon g))
                   / (G * dist))))
  /\ (forall a, elevation = Fin a -> - PI / 2 < a < PI / 2)
  /\ (forall s, elevation <> Infinity s).
Proof.
  intros Hg Hgs HG Hd G disc elevation.
  assert (He := getElevation_finite g gr gs dist vDelta vel Hg Hgs HG Hd).
  cbv zeta in He. fold G in He. fold disc in He. fold elevation in He.
  destruct (Rlt_dec disc 0) as [Hneg|Hpos].
  - rewrite (Rltb_true _ _ Hneg) in He. rewrite He.
    repeat split; try discriminate; try (intros; lra); auto.
  - rewrite (Rltb_false disc 0) in He by lra. rewrite He.
    split; [split; [discriminate | intros; lra]|].
    split; [reflexivity|]. split; [|discriminate].
    intros a Ha. injection Ha as <-. apply atan_bound.
Qed.

(** The theorem on the mortar at 100 m, level ground. *)
Lemma getElevation_out_of_range_witness :
  let G := 98 / 10 * 1 in
  let disc := 110 ^ 4 - G * (G * 100 ^ 2 + 2 * 0 * 110 ^ 2) in
  let elevation := getElevation sampleGlobalData (Fin 100) (Fin 0) (Fin 110) in
  (elevation = NaN <-> disc < 0)
  /\ (0 <= disc ->
      elevation
      = Fin (atan ((110 ^ 2 - sqrt disc * angleSign (activeWeapon sampleGlobalData))
                   / (G * 100))))
  /\ (forall a, elevation = Fin a -> - PI / 2 < a < PI / 2)
  /\ (forall s, elevation <> Infinity s).
Proof.
  apply (getElevation_out_of_range sampleGlobalData (98 / 10) 1 100 0 110);
    [reflexivity | reflexivity | lra | lra].
Defined.

End Elevation.

(* ------------------------------------------------------------------ *)
(** ** Bearing *)

Section Bearing.

Local Open Scope R_scope.

Lemma Ratan2_axis_lng : RNum.Ratan2 (100 + - 0) (0 + - 0) = PI / 2.
Proof.
  unfold RNum.Ratan2.
  rewrite (Rltb_false 0 (0 + - 0)) by lra.
  rewrite (Rltb_false (0 + - 0) 0) by lra.
  rewrite (Rltb_true 0 (100 + - 0)) by lra. reflexivity.
Qed.

Lemma Ratan2_axis_lat : RNum.Ratan2 (0 + - 0) (100 + - 0) = 0.
Proof.
  unfold RNum.Ratan2.
  rewrite (Rltb_true 0 (100 + - 0)) by lra.
  replace ((0 + - 0) / (100 + - 0)) with 0 by (field; lra).
  apply atan_0.
Qed.

Lemma PI_divisor : RNum.Rltb PI 0 || RNum.Rltb 0 PI = true.
Proof. rewrite (Rltb_true 0 PI PI_RGT_0). apply orb_true_r. Qed.

Lemma getBearing_along_lng : getBearing (point 0 0) (point 0 100) = Fin 180.
Proof.
  unfold getBearing, point.
  cbn [lat lng RNum.sub RNum.add RNum.neg RNum.atan2 RNum.mul RNum.div RNum.PI lit].
  rewrite Ratan2_axis_lng, PI_divisor.
  unfold lit; cbn [RNum.add RNum.ltb].
  assert (E : PI / 2 * 180 / PI + 90 = 180) by (field; apply PI_neq0).
  rewrite E. rewrite (Rltb_false 180 0) by lra. reflexivity.
Qed.

Lemma getBearing_along_lat : getBearing (point 0 0) (point 100 0) = Fin 90.
Proof.
  unfold getBearing, point.
  cbn [lat lng RNum.sub RNum.add RNum.neg RNum.atan2 RNum.mul RNum.div RNum.PI lit].
  rewrite Ratan2_axis_lat, PI_divisor.
  unfold lit; cbn [RNum.add RNum.ltb].
  assert (E : 0 * 180 / PI + 90 = 90) by (field; apply PI_neq0).
  rewrite E. rewrite (Rltb_false 90 0) by lra. reflexivity.
Qed.

(** C5, as the spec states it, fails: from the origin to the point
    displaced by +100 on the y axis the bearing is 180, not 90. *)
Lemma getBearing_y_axis_not_90 :
  getBearing (point 0 0) (point 0 100) = Fin 180 /\ Fin 180 <> Fin 90.
Proof.
  split; [exact getBearing_along_lng|].
  intros H. injection H as H. lra.
Qed.

(** C5, amended: the two values are the other way round.  From the
    origin to the point displaced by +100 on the y axis ([lng]) the
    bearing is 180 degrees, and to the point displaced by +100 on the x
    axis ([lat]) it is 90 degrees; in both cases the result lies in
    [0, 360). *)
Theorem getBearing_axis_aligned :
  exists b1 b2 : R,
    getBearing (point 0 0) (point 0 100) = Fin b1
    /\ getBearing (point 0 0) (point 100 0) = Fin b2
    /\ b1 = 180 /\ b2 = 90
    /\ 0 <= b1 < 360 /\ 0 <= b2 < 360.
Proof.
  exists 180, 90.
  split; [exact getBearing_along_lng|].
  split; [exact getBearing_along_lat|].
  repeat split; lra.
Qed.

End Bearing.

(* ------------------------------------------------------------------ *)
(** ** Height lookup without an active map *)



(* ------------------------------------------------------------------ *)
(** ** Canonical keypads in exact arithmetic *)

Section Strings.

Lemma toUpperCase_keypad (s : jsstring) :
  Forall (fun c => keypadUnit c \/ c = dash) s -> toUpperCase s = s.
Proof.
  induction 1 as [|c s Hc _ IH]; [reflexivity|].
  cbn [toUpperCase map]. fold (toUpperCase s). rewrite IH. f_equal.
  unfold upperUnit, keypadUnit, dash in *.
  destruct (97 <=? c) eqn:E; [|reflexivity].
  apply Z.leb_le in E. lia.
Qed.

Lemma split_no_sep (sep : Z) (u : jsstring) :
  ~ In sep u -> split sep u = [u].
Proof.
  induction u as [|c u IH]; intros Hn; [reflexivity|].
  cbn [split]. destruct (c =? sep) eqn:E.
  - apply Z.eqb_eq in E. subst. exfalso. apply Hn. left. reflexivity.
  - rewrite IH; [reflexivity|]. intros Hin. apply Hn. right. exact Hin.
Qed.

Lemma split_app_sep (sep : Z) (u v : jsstring) :
  ~ In sep u -> split sep (u ++ sep :: v) = u :: split sep v.
Proof.
  induction u as [|c u IH]; intros Hn.
  - cbn [app split]. rewrite Z.eqb_refl. reflexivity.
  - cbn [app split]. destruct (c =? sep) eqn:E.
    + apply Z.eqb_eq in E. subst. exfalso. apply Hn. left. reflexivity.
    + rewrite IH; [reflexivity|]. intros Hin. apply Hn. right. exact Hin.
Qed.

Lemma split_dashed (head subs : jsstring) :
  ~ In dash head -> ~ In dash subs ->
  split dash (dashed head subs) = head :: map (fun c => [c]) subs.
Proof.
  unfold dashed. revert head.
  induction subs as [|c subs IH]; intros head Hh Hs.
  - cbn [map concat]. rewrite app_nil_r. apply split_no_sep. exact Hh.
  - cbn [map concat app]. rewrite split_app_sep by exact Hh.
    f_equal. change (c :: concat (map (fun c0 => [dash; c0]) subs))
      with ([c] ++ concat (map (fun c0 => [dash; c0]) subs)).
    apply IH.
    + intros [H|[]]. apply Hs. left. exact H.
    + intros H. apply Hs. right. exact H.
Qed.

Lemma join_cons (sep p q : jsstring) (ps : list jsstring) :
  join sep (p :: q :: ps) = p ++ sep ++ join sep (q :: ps).
Proof. reflexivity. Qed.

Lemma join_empty_singles (head subs : jsstring) :
  join [] (head :: map (fun c => [c]) subs) = head ++ subs.
Proof.
  revert head. induction subs as [|c subs IH]; intros head.
  - cbn. rewrite app_nil_r. reflexivity.
  - cbn [map]. rewrite join_cons, IH. reflexivity.
Qed.

Lemma join_dash_singles (head subs : jsstring) :
  join [dash] (head :: map (fun c => [c]) subs) = dashed head subs.
Proof.
  unfold dashed. revert head. induction subs as [|c subs IH]; intros head.
  - cbn. rewrite app_nil_r. reflexivity.
  - cbn [map concat]. rewrite join_cons, IH. reflexivity.
Qed.

Lemma formatKeyPad_loop_singles (pre subs : jsstring) :
  formatKeyPad_loop (pre ++ subs) (length pre) (length subs)
  = map (fun c => [c]) subs.
Proof.
  revert pre. induction subs as [|c subs IH]; intros pre; [reflexivity|].
  cbn [length formatKeyPad_loop map]. f_equal.
  - unfold slice. rewrite skipn_app, skipn_all, Nat.sub_diag. cbn [skipn app].
    replace (length pre + 1 - length pre)%nat with 1%nat by lia. reflexivity.
  - replace (pre ++ c :: subs) with ((pre ++ [c]) ++ subs)
      by (rewrite <- app_assoc; reflexivity).
    replace (length pre + 1)%nat with (length (pre ++ [c]))
      by (rewrite length_app; reflexivity).
    apply IH.
Qed.

(** Formatting a canonical keypad changes nothing. *)
Lemma keypadUnit_not_dash (s : jsstring) :
  Forall keypadUnit s -> ~ In dash s.
Proof.
  intros Hs Hin. rewrite Forall_forall in Hs. apply Hs in Hin.
  unfold keypadUnit, dash in Hin. lia.
Qed.

Lemma formatKeyPad_dashed (a b c : Z) (subs : jsstring) :
  Forall keypadUnit (a :: b :: c :: subs) ->
  formatKeyPad (dashed [a; b; c] subs) = Some (dashed [a; b; c] subs).
Proof.
  intros Hk.
  rewrite !Forall_cons_iff in Hk. destruct Hk as (Ha & Hb & Hc & Hsubs).
  assert (Hhead : Forall keypadUnit [a; b; c])
    by (repeat (apply Forall_cons; [assumption|]); apply Forall_nil).
  unfold formatKeyPad.
  replace (length (dashed [a; b; c] subs) =? 0)%nat with false
    by (unfold dashed; cbn; reflexivity).
  rewrite toUpperCase_keypad.
  2:{ unfold dashed. apply Forall_app. split.
      - repeat (apply Forall_cons; [left; assumption|]). apply Forall_nil.
      - clear - Hsubs. induction Hsubs as [|x l Hx _ IH]; cbn [map concat app].
        + apply Forall_nil.
        + apply Forall_cons; [right; reflexivity|].
          apply Forall_cons; [left; exact Hx | exact IH]. }
  rewrite split_dashed by (apply keypadUnit_not_dash; assumption).
  rewrite join_empty_singles.
  cbn [app length].
  replace (S (S (S (length subs))) - 3)%nat with (length subs) by lia.
  change (slice 0 3 (a :: b :: c :: subs)) with [a; b; c].
  change (a :: b :: c :: subs) with ([a; b; c] ++ subs).
  change 3%nat with (length [a; b; c]).
  rewrite formatKeyPad_loop_singles.
  rewrite join_dash_singles. reflexivity.
Qed.

End Strings.

Section Digits.

Lemma forallb_range (P : Z -> bool) (lo : Z) (n : nat) :
  forallb P (map (fun i => lo + Z.of_nat i) (seq 0 n)) = true ->
  forall z, lo <= z < lo + Z.of_nat n -> P z = true.
Proof.
  intros H z Hz. rewrite forallb_forall in H. apply H.
  apply in_map_iff. exists (Z.to_nat (z - lo)). split; [lia|].
  apply in_seq. lia.
Qed.

Lemma isNumber_eq (n : qnum) (z : Z) : isNumber n z = true -> n = QFin (inject_Z z).
Proof.
  destruct n as [|[p q]]; unfold isNumber, Qnum, Qden; [discriminate|].
  intros H. apply andb_true_iff in H. destruct H as [H1 H2].
  apply Z.eqb_eq in H1. apply Pos.eqb_eq in H2. subst. reflexivity.
Qed.

Lemma pad_two_digits (N : Z) :
  1 <= N <= 99 ->
  exists a b, pad N 2 = [a; b] /\ 48 <= a <= 57 /\ 48 <= b <= 57
              /\ Number [a; b] = QFin (inject_Z N).
Proof.
  intros HN.
  assert (H : padCheck N = true).
  { apply (forallb_range padCheck 1 99); [vm_compute; reflexivity | lia]. }
  unfold padCheck in H.
  destruct (pad N 2) as [|a [|b [|? ?]]]; try discriminate.
  exists a, b. repeat rewrite andb_true_iff in H.
  destruct H as ((((H1 & H2) & H3) & H4) & H5).
  apply isNumber_eq in H5. repeat split; try (apply Z.leb_le; assumption). exact H5.
Qed.

Lemma numToString_digit (d : Z) :
  1 <= d <= 9 ->
  exists c, numToString d = [c] /\ 49 <= c <= 57
            /\ Number [c] = QFin (inject_Z d).
Proof.
  intros Hd.
  assert (H : digitCheck d = true).
  { apply (forallb_range digitCheck 1 9); [vm_compute; reflexivity | lia]. }
  unfold digitCheck in H.
  destruct (numToString d) as [|c [|? ?]]; try discriminate.
  exists c. repeat rewrite andb_true_iff in H.
  destruct H as ((H1 & H2) & H3).
  apply isNumber_eq in H3. repeat split; try (apply Z.leb_le; assumption). exact H3.
Qed.

End Digits.

Section Decode.

Local Open Scope Q_scope.

Lemma getPos_loop_subs (parts : list jsstring) (ds : list Z) :
  Forall2 (fun part d => Number part = QFin (inject_Z d)) parts ds ->
  forall (i : nat) (la ln : Q), i <> 0%nat ->
    getPos_loop parts i (QFin la) (QFin ln)
    = inr (QFin (fst (decodeSubs ds i la ln)), QFin (snd (decodeSubs ds i la ln))).
Proof.
  induction 1 as [|part d parts ds Hd _ IH]; intros i la ln Hi.
  - reflexivity.
  - cbn [getPos_loop decodeSubs].
    destruct (i =? 0)%nat eqn:E; [apply Nat.eqb_eq in E; contradiction|].
    rewrite Hd.
    change ((QFin (inject_Z d) - QFin 1) mod QFin 3)%qn with (QFin (subXof d)).
    change (QFin 2 - (QNum.ceil (QFin (inject_Z d) / QFin 3) - QFin 1))%qn
      with (QFin (subYof d)).
    cbn [QNum.add QNum.mul QNum.lift2].
    apply IH. lia.
Qed.

End Decode.

Section Arithmetic.

Local Open Scope Q_scope.

Lemma interval_pos (k : nat) : 0 < interval k.
Proof.
  unfold interval. apply Qlt_shift_div_l.
  - apply Qpower_0_lt. reflexivity.
  - rewrite Qmult_0_l. reflexivity.
Qed.

Lemma interval_S (k : nat) : interval k == 3 * interval (S k).
Proof.
  unfold interval. rewrite Nat2Z.inj_succ, <- Z.add_1_r.
  rewrite Qpower_plus by discriminate.
  assert (H : ~ 3 ^ Z.of_nat k == 0) by (apply Qpower_not_0; discriminate).
  change (3 ^ 1) with 3. field. exact H.
Qed.

Lemma Qfloor_div3 (y : Q) : Qfloor (y / 3) = (Qfloor y / 3)%Z.
Proof.
  destruct y as [n d]. unfold Qfloor, Qdiv, Qmult, Qinv. cbn [Qnum Qden].
  rewrite Z.mul_1_r, Pos2Z.inj_mul. symmetry. apply Z.div_div; lia.
Qed.

Lemma Qfloor_interval_S (x : Q) (k : nat) :
  Qfloor (x / interval k) = (Qfloor (x / interval (S k)) / 3)%Z.
Proof.
  rewrite <- Qfloor_div3. apply Qfloor_comp.
  pose proof (interval_pos (S k)) as Hp.
  rewrite (interval_S k). field. lra.
Qed.

Lemma Qfloor_interval_nonneg (x : Q) (k : nat) :
  0 <= x -> (0 <= Qfloor (x / interval k))%Z.
Proof.
  intros Hx. change 0%Z with (Qfloor 0). apply Qfloor_resp_le.
  apply Qle_shift_div_l; [apply interval_pos|]. lra.
Qed.

Lemma Qfloor_cell (x : Q) (k : nat) :
  interval k * inject_Z (Qfloor (x / interval k)) <= x
  /\ x < interval k * inject_Z (Qfloor (x / interval k)) + interval k.
Proof.
  pose proof (interval_pos k) as Hp.
  pose proof (Qfloor_le (x / interval k)) as H1.
  pose proof (Qlt_floor (x / interval k)) as H2.
  rewrite inject_Z_plus in H2. change (inject_Z 1) with 1 in H2.
  set (F := inject_Z (Qfloor (x / interval k))) in *.
  assert (E : x == interval k * (x / interval k)) by (field; lra).
  split.
  - rewrite E at 1. apply Qmult_le_l; [exact Hp | exact H1].
  - rewrite E at 1.
    setoid_replace (interval k * F + interval k) with (interval k * (F + 1)) by ring.
    apply Qmult_lt_l; [exact Hp | exact H2].
Qed.

Lemma encodeDigit_range (x y : Q) (k : nat) :
  0 <= x -> 0 <= y -> (1 <= encodeDigit x y k <= 9)%Z.
Proof.
  intros Hx Hy. unfold encodeDigit.
  pose proof (Qfloor_interval_nonneg x k Hx).
  pose proof (Qfloor_interval_nonneg y k Hy).
  rewrite !Z.rem_mod_nonneg by lia.
  pose proof (Z.mod_pos_bound (Qfloor (x / interval k)) 3).
  pose proof (Z.mod_pos_bound (Qfloor (y / interval k)) 3). lia.
Qed.

End Arithmetic.

Section RoundTrip.

Local Open Scope Q_scope.

Lemma keypadString_dashed (L N : Z) (ds : list Z) :
  (65 <= L <= 90)%Z -> (1 <= N <= 99)%Z ->
  Forall (fun d => 1 <= d <= 9)%Z ds ->
  exists a b subs,
    keypadString L N ds = dashed [L; a; b] subs
    /\ Forall keypadUnit (L :: a :: b :: subs)
    /\ Number [a; b] = QFin (inject_Z N)
    /\ Forall2 (fun part d => Number part = QFin (inject_Z d))
         (map (fun c => [c]) subs) ds.
Proof.
  intros HL HN Hds.
  destruct (pad_two_digits N HN) as (a & b & Hpad & Ha & Hb & Hnum).
  assert (Hsubs : exists subs,
             concat (map (fun d => dash :: numToString d) ds)
             = concat (map (fun c => [dash; c]) subs)
             /\ Forall keypadUnit subs
             /\ Forall2 (fun part d => Number part = QFin (inject_Z d))
                  (map (fun c => [c]) subs) ds).
  { induction Hds as [|d ds Hd _ (subs & E & Hk & Hn)].
    - exists []. repeat split; constructor.
    - destruct (numToString_digit d Hd) as (c & Hc & Hcr & Hcn).
      exists (c :: subs). cbn [map concat]. rewrite Hc, E.
      repeat split.
      + constructor; [left; lia | exact Hk].
      + constructor; assumption. }
  destruct Hsubs as (subs & E & Hk & Hn).
  exists a, b, subs. unfold keypadString, dashed, fromCharCode.
  rewrite Hpad, E, Z.mod_small by lia.
  repeat split; try assumption.
  repeat (apply Forall_cons; [first [left; lia | right; lia]|]). exact Hk.
Qed.

Lemma getPos_keypadString (L N : Z) (ds : list Z) :
  (65 <= L <= 90)%Z -> (1 <= N <= 99)%Z ->
  Forall (fun d => 1 <= d <= 9)%Z ds ->
  let r := decodeSubs ds 1
             (0 + 300 * (inject_Z L - 65)) (0 + 300 * (inject_Z N - 1)) in
  getPos (keypadString L N ds)
  = Ok {| lat := QFin (fst r + interval (length ds) / 2);
          lng := QFin (snd r + interval (length ds) / 2) |}.
Proof.
  intros HL HN Hds r.
  destruct (keypadString_dashed L N ds HL HN Hds)
    as (a & b & subs & E & Hk & Hnum & Hparts).
  rewrite E. unfold getPos. rewrite (formatKeyPad_dashed L a b subs Hk).
  assert (Hnd : ~ In dash (L :: a :: b :: subs))
    by (apply keypadUnit_not_dash; exact Hk).
  rewrite split_dashed.
  2:{ intros Hin. apply Hnd. cbn [In] in *. tauto. }
  2:{ intros Hin. apply Hnd. cbn [In]. tauto. }
  cbn [getPos_loop Nat.eqb charCodeAt0 sliceFrom skipn].
  unfold QNum.ofZ. cbn [QNum.ltb].
  rewrite (Qlt_bool_false (inject_Z L) 65)
    by (change 65 with (inject_Z 65); rewrite <- Zle_Qle; lia).
  rewrite Hnum. cbn [QNum.sub QNum.add QNum.mul QNum.lift2 Nat.add].
  rewrite (getPos_loop_subs _ ds Hparts) by discriminate.
  fold r.
  assert (Hlen : length subs = length ds).
  { apply Forall2_length in Hparts. rewrite length_map in Hparts. exact Hparts. }
  cbn [length]. rewrite length_map, Hlen.
  replace (S (length ds) - 1)%nat with (length ds) by lia.
  reflexivity.
Qed.

Lemma getKP_keypadString (lat lng : Q) (precision : option Q) (zoom : Q) :
  0 <= lat -> 0 <= lng < 7800 ->
  getKP lat lng precision zoom
  = keypadString (65 + Qfloor (lng / interval 0)) (Qfloor (lat / interval 0) + 1)
      (map (encodeDigit lng lat)
         (seq 1 (subKeypadCount (effectivePrecision precision zoom)))).
Proof.
  intros Hlat [Hlng Hmax]. unfold getKP.
  rewrite (Qlt_bool_false lng 0 Hlng), (Qlt_bool_false lat 0 Hlat).
  cbn [orb]. cbv zeta.
  assert (HF : (Qfloor (lng / interval 0) <= 25)%Z).
  { assert (H : (Qfloor (lng / interval 0) < 26)%Z); [|lia].
    destruct (Z_lt_le_dec (Qfloor (lng / interval 0)) 26) as [H|H]; [exact H|].
    exfalso. rewrite (Qfloor_comp _ (lng / 300)) in H
      by (rewrite interval_0; reflexivity).
    apply Qfloor_div_lower in H. change (inject_Z 26) with 26 in H. lra. }
  replace (65 + Qfloor (lng / interval 0) >? 90)%Z with false
    by (symmetry; rewrite Z.gtb_ltb; apply Z.ltb_ge; lia).
  fold (effectivePrecision precision zoom).
  unfold subKeypadCount, keypadString.
  repeat match goal with
         | |- context [if Qeq_bool ?p ?k then _ else _] =>
             destruct (Qeq_bool p k)
         end;
    cbn [seq map concat]; unfold encodeDigit;
    rewrite <- ?app_assoc; cbn [app]; rewrite ?app_nil_r; reflexivity.
Qed.

End RoundTrip.

Section Main.

Local Open Scope Q_scope.

Lemma Qfloor_interval_0_upper (x : Q) (k : Z) :
  x < inject_Z k * 300 -> (Qfloor (x / interval 0) < k)%Z.
Proof.
  intros Hx.
  destruct (Z_lt_le_dec (Qfloor (x / interval 0)) k) as [H|H]; [exact H|].
  exfalso. rewrite (Qfloor_comp _ (x / 300)) in H
    by (rewrite interval_0; reflexivity).
  apply Qfloor_div_lower in H. lra.
Qed.

End Main.

(* ------------------------------------------------------------------ *)
(** ** The round trip on the doubles of the code *)

(** C1: the round trip fails in the code.  At the point of [lat] 500
    and [lng] 500, on the diagonal, where it does not matter which axis
    is which, [getKP] at precision 4 returns "B02-3-3"; [getPos] decodes
    this string to the point of [lat] and [lng] 583.33..., more than 83
    away on either axis, while the cell-width at this depth is
    [300 / 3^2], about 33.3.  The quotient [300 / 3 ** 2] is the double
    33.333333333333336, by which 500 divides to 14.999999999999998: the
    second sub-keypad digit is taken from cell 14 of its level, the
    first one from cell 5 of the level above, and cell 14 is not in
    cell 5.  In exact arithmetic the string is "B02-3-7", the cell that
    holds the point. *)
Theorem getKP_getPos_roundtrip_fails :
  forall zoom,
    B64.getKP (B64.ofZ 500) (B64.ofZ 500) (Some (B64.ofZ 4)) zoom
    = Some (js "B02-3-3")
    /\ (exists p qa qn,
          B64.getPos (js "B02-3-3") = Ok p
          /\ B64.value (lat p) = Some qa /\ B64.value (lng p) = Some qn
          /\ (83 < qa - 500)%Q /\ (83 < qn - 500)%Q
          /\ (interval 2 < 34)%Q)
    /\ (forall z, getKP 500 500 (Some 4%Q) z = js "B02-3-7").
Proof.
  intros zoom. split; [reflexivity|]. split.
  - do 3 eexists.
    split; [vm_compute; reflexivity|].
    split; [vm_compute; reflexivity|].
    split; [vm_compute; reflexivity|].
    repeat split; reflexivity.
  - intros z. reflexivity.
Qed.

(* ------------------------------------------------------------------ *)
(** ** Not-a-number in a decoded position *)

Lemma join_empty_concat (parts : list jsstring) : join [] parts = concat parts.
Proof.
  induction parts as [|p [|q ps] IH].
  - reflexivity.
  - cbn. rewrite app_nil_r. reflexivity.
  - rewrite join_cons, IH. reflexivity.
Qed.

Lemma concat_split (sep : Z) (s : jsstring) :
  concat (split sep s) = filter (fun c => negb (c =? sep)) s.
Proof.
  induction s as [|c s IH]; [reflexivity|].
  cbn [split filter]. destruct (c =? sep); cbn [negb].
  - cbn [concat app]. exact IH.
  - destruct (split sep s) as [|p ps]; cbn [concat app] in *;
      rewrite <- IH; reflexivity.
Qed.

Lemma upperUnit_not_dash (c : Z) : c <> dash -> upperUnit c <> dash.
Proof.
  unfold upperUnit, dash. intros Hc.
  destruct ((97 <=? c) && (c <=? 122)) eqn:E; [|exact Hc].
  apply andb_true_iff in E. destruct E as [E1 E2].
  apply Z.leb_le in E1. lia.
Qed.

Lemma formatKeyPad_loop_skipn (T : jsstring) :
  formatKeyPad_loop T 3 (length T - 3) = map (fun c => [c]) (skipn 3 T).
Proof.
  destruct (le_lt_dec 3 (length T)) as [Hl|Hl].
  - pose proof (firstn_skipn 3 T) as E.
    assert (HH : length (firstn 3 T) = 3%nat) by (rewrite length_firstn; lia).
    remember (firstn 3 T) as H eqn:EH. remember (skipn 3 T) as S eqn:ES.
    clear EH ES. subst T.
    replace (length (H ++ S) - 3)%nat with (length S)
      by (rewrite length_app; lia).
    rewrite <- HH. apply formatKeyPad_loop_singles.
  - replace (length T - 3)%nat with 0%nat by lia.
    rewrite skipn_all2 by lia. reflexivity.
Qed.

(** The parts that [getPos] loops over: the first three code units left
    once the dashes are gone, then one part for each of the others. *)
Lemma formatKeyPad_parts (kp : jsstring) :
  kp <> [] ->
  let T := filter (fun c => negb (c =? dash)) (toUpperCase kp) in
  formatKeyPad kp = Some (dashed (firstn 3 T) (skipn 3 T))
  /\ split dash (dashed (firstn 3 T) (skipn 3 T))
     = firstn 3 T :: map (fun c => [c]) (skipn 3 T).
Proof.
  intros Hne T.
  assert (HT : ~ In dash T).
  { unfold T. intros Hin. apply filter_In in Hin. destruct Hin as [_ Hin].
    rewrite Z.eqb_refl in Hin. discriminate. }
  split.
  - unfold formatKeyPad.
    destruct kp as [|c kp]; [congruence|]. cbn [length Nat.eqb].
    rewrite join_empty_concat, concat_split. fold T.
    rewrite formatKeyPad_loop_skipn. unfold slice. cbn [skipn].
    rewrite Nat.sub_0_r, join_dash_singles. reflexivity.
  - apply split_dashed.
    + intros Hin. apply HT. rewrite <- (firstn_skipn 3 T).
      apply in_or_app. left. exact Hin.
    + intros Hin. apply HT. rewrite <- (firstn_skipn 3 T).
      apply in_or_app. right. exact Hin.
Qed.

Lemma getPos_loop_poison (parts : list jsstring) :
  forall (i : nat) (la ln : qnum),
    i <> 0%nat -> lngPoisoned la ln ->
    exists la' ln',
      getPos_loop parts i la ln = inr (la', ln') /\ lngPoisoned la' ln'.
Proof.
  induction parts as [|part parts IH]; intros i la ln Hi Hp.
  - exists la, ln. split; [reflexivity | exact Hp].
  - cbn [getPos_loop].
    destruct (i =? 0)%nat eqn:E; [apply Nat.eqb_eq in E; contradiction|].
    apply IH; [lia|].
    unfold lngPoisoned in *.
    destruct (Number part) as [|s]; [destruct la, ln; reflexivity|].
    destruct la as [|la], ln as [|ln]; cbn; auto.
Qed.

(** A decoded position whose [lat] is not-a-number has a [lng] that is
    not-a-number too, as soon as the input has a character other than a
    dash. *)
Lemma getPos_lat_NaN_lng_NaN (kp : jsstring) (p : LatLng qnum) :
  (exists c, In c kp /\ c <> dash) ->
  getPos kp = Ok p ->
  QNum.isNaN (lat p) = true -> QNum.isNaN (lng p) = true.
Proof.
  intros (c & Hc & Hcd) Hp.
  assert (Hne : kp <> []) by (intros ->; destruct Hc).
  destruct (formatKeyPad_parts kp Hne) as [Hf Hs].
  set (T := filter (fun c => negb (c =? dash)) (toUpperCase kp)) in *.
  assert (HT : exists t T', T = t :: T').
  { assert (Hin : In (upperUnit c) T).
    { unfold T. apply filter_In. split.
      - unfold toUpperCase. apply in_map. exact Hc.
      - apply negb_true_iff, Z.eqb_neq, upperUnit_not_dash, Hcd. }
    destruct T as [|t T']; [destruct Hin | eauto]. }
  destruct HT as (t & T' & ET).
  unfold getPos in Hp. rewrite Hf, Hs in Hp. rewrite ET in Hp.
  cbn [firstn getPos_loop Nat.eqb charCodeAt0] in Hp.
  destruct (QNum.ltb (QNum.ofZ t) (QFin 65)).
  - injection Hp as <-. reflexivity.
  - match type of Hp with
    | context [getPos_loop ?ps ?i ?a ?b] =>
        destruct (getPos_loop_poison ps i a b) as (la' & ln' & El & Hl);
          [discriminate | intros H; discriminate H |]
    end.
    rewrite El in Hp. injection Hp as <-. cbn [lat lng].
    unfold lngPoisoned in Hl. intros H.
    destruct la' as [|la']; [|discriminate H].
    specialize (Hl eq_refl).
    destruct ln' as [|ln']; [reflexivity | discriminate Hl].
Qed.

(* ------------------------------------------------------------------ *)
(** ** The order of the rejections in [shoot] *)

Lemma getHeight_no_call (env : Env) (a b : LatLng rnum) (f : callee) :
  ~ In (EvCall f) (trace (getHeight env a b)).
Proof.
  unfold getHeight, getImageData, debugHeightmap, liftResult.
  destruct (truthy _); cbn; [|intuition discriminate].
  destruct (getOffsetLatLng env a) as [ao|e]; cbn; [|intuition discriminate].
  destruct (getOffsetLatLng env b) as [bo|e]; cbn; [|intuition discriminate].
  destruct (debugActive _); cbn;
    repeat match goal with
           | |- context [if ?c then _ else _] => destruct c; cbn
           | |- context [match findMap ?m ?i ?v with _ => _ end] =>
               destruct (findMap m i v); cbn
           end; intuition discriminate.
Qed.

Lemma getHeight_no_verdict (env : Env) (a b : LatLng rnum) :
  verdicts (trace (getHeight env a b)) = [].
Proof.
  unfold getHeight, getImageData, debugHeightmap, liftResult.
  destruct (truthy _); cbn; [|reflexivity].
  destruct (getOffsetLatLng env a) as [ao|e]; cbn; [|reflexivity].
  destruct (getOffsetLatLng env b) as [bo|e]; cbn; [|reflexivity].
  destruct (debugActive _); cbn;
    repeat match goal with
           | |- context [if ?c then _ else _] => destruct c; cbn
           | |- context [match findMap ?m ?i ?v with _ => _ end] =>
               destruct (findMap m i v); cbn
           end; reflexivity.
Qed.

Lemma isNaN_ofQ (q : qnum) : RNum.isNaN (RNum.ofQ q) = QNum.isNaN q.
Proof. destruct q; reflexivity. Qed.

(** X16: the solve operation classifies in a fixed order.  Both inputs
    having three characters or more, both decode; a position is invalid
    when its [lng] is not-a-number, the test that [shoot] makes (a [lat]
    that is not-a-number comes with such a [lng], unless the input has
    no character other than dashes).
    - If either position is invalid, [shoot] shows the invalid-both,
      invalid-mortar or invalid-target error, nothing else, returns 1,
      and calls neither [getHeight] nor [getDist], [getBearing] or
      [getElevation].
    - Otherwise it calls [getHeight]; if that signals the mortar or the
      target out of the map, [shoot] shows that error, nothing else,
      returns 1, and calls neither [getDist] nor [getBearing] or
      [getElevation].
    - With a numeric height it calls [getDist], [getBearing],
      [getVelocity] and [getElevation] in this order, and only then, as
      the last event, shows out-of-range (angle not-a-number), else
      too-close (angle above the bound), else inserts the result; no
      verdict comes before.
    - [getElevation] is called only when both positions are valid and
      the height is numeric. *)
Theorem shoot_precedence (env : Env) (a b : jsstring) :
  (3 <= length a)%nat -> (3 <= length b)%nat ->
  exists aPos bPos,
    getPos a = Ok aPos /\ getPos b = Ok bPos /\
    let s := shoot env a b in
    let w := activeWeapon (globalData env) in
    let invalidA := QNum.isNaN (lng aPos) in
    let invalidB := QNum.isNaN (lng bPos) in
    let h := getHeight env (ofQ aPos) (ofQ bPos) in
    (invalidA || invalidB = true ->
       (if invalidA && invalidB then reports InvalidMortarAndTarget None s
        else if invalidA then reports InvalidMortar (Some mortar) s
        else reports InvalidTarget (Some target) s)
       /\ ~ calls FgetHeight s /\ ~ calls FgetDist s
       /\ ~ calls FgetBearing s /\ ~ calls FgetElevation s)
    /\ (invalidA || invalidB = false ->
        calls FgetHeight s
        /\ (outcome h = Ok AERROR ->
            reports MortarOutOfMap (Some mortar) s
            /\ ~ calls FgetDist s /\ ~ calls FgetBearing s /\ ~ calls FgetElevation s)
        /\ (outcome h = Ok BERROR ->
            reports TargetOutOfMap (Some target) s
            /\ ~ calls FgetDist s /\ ~ calls FgetBearing s /\ ~ calls FgetElevation s)
        /\ (forall height, outcome h = Ok (HNum height) ->
            let distance := getDist (ofQ aPos) (ofQ bPos) in
            let bearing := getBearing (ofQ aPos) (ofQ bPos) in
            let vel := getVelocity w distance in
            let elevation :=
              convertElevation w (getElevation (globalData env) distance height vel) in
            exists t,
              trace s
              = t ++ [EvCall FgetDist; EvCall FgetBearing; EvCall FgetVelocity;
                      EvCall FgetElevation;
                      if RNum.isNaN elevation
                      then EvShowError (TargetOutOfRange distance) (Some target)
                      else if RNum.gtb elevation (snd (minElevation w))
                      then EvShowError (TargetTooClose distance) (Some target)
                      else EvInsertCalc bearing elevation distance vel height]
              /\ verdicts t = []
              /\ ~ In (EvCall FgetDist) t /\ ~ In (EvCall FgetBearing) t
              /\ ~ In (EvCall FgetElevation) t
              /\ outcome s
                 = Ok (if RNum.isNaN elevation || RNum.gtb elevation (snd (minElevation w))
                       then Return1 else ReturnUndefined)))
    /\ (calls FgetElevation s ->
        invalidA || invalidB = false
        /\ exists height, outcome h = Ok (HNum height))
    /\ ((exists c, In c a /\ c <> dash) ->
        QNum.isNaN (lat aPos) = true -> invalidA = true)
    /\ ((exists c, In c b /\ c <> dash) ->
        QNum.isNaN (lat bPos) = true -> invalidB = true).
Proof.
  intros Ha Hb.
  destruct (getPos_nonempty a) as [aPos HaPos]; [destruct a; cbn in Ha; [lia|discriminate]|].
  destruct (getPos_nonempty b) as [bPos HbPos]; [destruct b; cbn in Hb; [lia|discriminate]|].
  exists aPos, bPos. split; [exact HaPos|]. split; [exact HbPos|].
  intros s w invalidA invalidB h.
  assert (HlatA : (exists c, In c a /\ c <> dash) ->
                  QNum.isNaN (lat aPos) = true -> invalidA = true)
    by (intros Hc; exact (getPos_lat_NaN_lng_NaN a aPos Hc HaPos)).
  assert (HlatB : (exists c, In c b /\ c <> dash) ->
                  QNum.isNaN (lat bPos) = true -> invalidB = true)
    by (intros Hc; exact (getPos_lat_NaN_lng_NaN b bPos Hc HbPos)).
  assert (Hguard : ((length a <? 3)%nat || (length b <? 3)%nat)%bool = false).
  { apply orb_false_iff. split; apply Nat.ltb_ge; assumption. }
  pose proof (getHeight_no_call env (ofQ aPos) (ofQ bPos)) as Hnc.
  pose proof (getHeight_no_verdict env (ofQ aPos) (ofQ bPos)) as Hnv.
  assert (HA : RNum.isNaN (lng (ofQ aPos)) = invalidA) by apply isNaN_ofQ.
  assert (HB : RNum.isNaN (lng (ofQ bPos)) = invalidB) by apply isNaN_ofQ.
  fold h in Hnc, Hnv.
  assert (Hs : s = shoot env a b) by reflexivity.
  clearbody s.
  unfold shoot in Hs. rewrite Hguard, HaPos, HbPos in Hs.
  unfold call, liftResult, showError in Hs.
  cbn [bind emit ret app] in Hs. cbv zeta in Hs.
  rewrite HA, HB in Hs. fold h in Hs. fold w in Hs.
  clearbody invalidA invalidB h.
  unfold calls, reports.
  split; [|split; [|split; [|split; [exact HlatA | exact HlatB]]]].
  - intros Hinv. rewrite Hinv in Hs.
    destruct invalidA, invalidB; try discriminate; cbn in Hs; subst s; cbn;
      (split; [split; reflexivity|]); intuition discriminate.
  - intros Hval. rewrite Hval in Hs.
    pose proof (Hnc FgetDist) as HncD.
    pose proof (Hnc FgetBearing) as HncB.
    pose proof (Hnc FgetElevation) as HncE.
    unfold verdicts in Hnv.
    destruct h as [th [hv|e]]; cbn [trace outcome fst snd] in *.
    + destruct hv as [height| |];
        cbn [bind emit ret app trace outcome fst snd] in Hs.
      * clear HA HB.
        set (distance := getDist (ofQ aPos) (ofQ bPos)) in *.
        set (vel := getVelocity w distance) in *.
        set (elev := convertElevation w
                       (getElevation (globalData env) distance height vel)) in *.
        split; [|split; [discriminate|split; [discriminate|]]].
        { destruct (RNum.isNaN elev); [|destruct (RNum.gtb elev _)];
            subst s; cbn; intuition. }
        intros height0 Hh. injection Hh as <-. fold elev.
        exists ([EvResetCalc; EvFormatInput mortar (formatKeyPad a);
                 EvFormatInput target (formatKeyPad b); EvSetCursor;
                 EvCall FgetPos; EvCall FgetPos; EvCall FgetHeight] ++ th).
        destruct (RNum.isNaN elev); [|destruct (RNum.gtb elev _)];
          subst s; cbn [trace outcome fst snd orb];
          (split; [cbn [app]; rewrite <- ?app_assoc; reflexivity|]);
          (split; [unfold verdicts; rewrite filter_app, Hnv; reflexivity|]);
          rewrite !in_app_iff; cbn [In]; intuition discriminate.
      * split; [|split; [|split; [discriminate|intros ? ?; discriminate]]].
        { subst s; cbn; intuition. }
        intros _. subst s. cbn [trace outcome fst snd].
        split; [split; [|reflexivity]|].
        { unfold verdicts. cbn [filter isVerdict]. rewrite filter_app, Hnv. reflexivity. }
        cbn [In]; rewrite !in_app_iff; cbn [In]; intuition discriminate.
      * split; [|split; [discriminate|split; [|intros ? ?; discriminate]]].
        { subst s; cbn; intuition. }
        intros _. subst s. cbn [trace outcome fst snd].
        split; [split; [|reflexivity]|].
        { unfold verdicts. cbn [filter isVerdict]. rewrite filter_app, Hnv. reflexivity. }
        cbn [In]; rewrite !in_app_iff; cbn [In]; intuition discriminate.
    + cbn [bind emit ret app trace outcome fst snd] in Hs.
      split; [|split; [discriminate|split; [discriminate|intros ? ?; discriminate]]].
      subst s; cbn; intuition.
  - intros Hcall. pose proof (Hnc FgetElevation) as HncE.
    destruct (invalidA || invalidB) eqn:Hinv.
    + exfalso. destruct invalidA, invalidB; try discriminate;
        cbn in Hs; subst s; cbn in Hcall; intuition discriminate.
    + split; [reflexivity|].
      destruct h as [th [[height| |]|e]]; cbn [trace outcome fst snd] in *;
        [exists height; reflexivity| exfalso ..];
        cbn [bind emit ret app trace outcome fst snd] in Hs; subst s;
        cbn [trace fst In] in Hcall; rewrite ?in_app_iff in Hcall;
        cbn [In] in Hcall; intuition discriminate.
Qed.

(** The theorem on two keypads of the sample map: both are valid, and
    the height lookup is reached. *)
Lemma shoot_precedence_witness :
  calls FgetHeight (shoot sampleEnv (js "A01") (js "A03")).
Proof.
  destruct (shoot_precedence sampleEnv (js "A01") (js "A03"))
    as (aPos & bPos & HaPos & HbPos & _ & Hvalid & _);
    [cbn; lia | cbn; lia |].
  vm_compute in HaPos. vm_compute in HbPos.
  injection HaPos as <-. injection HbPos as <-.
  apply Hvalid. reflexivity.
Defined.

(** C3: a keypad that decodes to an invalid position is to be reported
    as invalid before anything else.  On the mortar input "---" the code
    does not: the position decoded has [lat] not-a-number and a numeric
    [lng], [shoot] tests [lng] alone, goes on to the height lookup, to
    the distance, the bearing and the elevation, and shows the
    out-of-range error on the target, with a distance that is
    not-a-number. *)
Lemma shoot_dashes_not_rejected :
  (exists ln, getPos (js "---") = Ok {| lat := QNaN; lng := QFin ln |})
  /\ calls FgetHeight (shoot sampleEnv (js "---") (js "A03"))
  /\ calls FgetElevation (shoot sampleEnv (js "---") (js "A03"))
  /\ verdicts (trace (shoot sampleEnv (js "---") (js "A03")))
     = [EvShowError (TargetOutOfRange NaN) (Some target)]
  /\ outcome (shoot sampleEnv (js "---") (js "A03")) = Ok Return1.
Proof.
  split; [eexists; reflexivity|].
  assert (E : shoot sampleEnv (js "---") (js "A03")
              = ([EvResetCalc; EvFormatInput mortar (Some []);
                  EvFormatInput target (Some (js "A03")); EvSetCursor;
                  EvCall FgetPos; EvCall FgetPos; EvCall FgetHeight;
                  EvGetContext; EvCall FgetDist; EvCall FgetBearing;
                  EvCall FgetVelocity; EvCall FgetElevation;
                  EvShowError (TargetOutOfRange NaN) (Some target)],
                 Ok Return1))
    by reflexivity.
  rewrite E. unfold calls. cbn. intuition.
Qed.

(* ------------------------------------------------------------------ *)
(** ** The format of the input fields *)

Section Canonical.

Lemma upperUnit_idem (c : Z) : upperUnit (upperUnit c) = upperUnit c.
Proof.
  unfold upperUnit.
  destruct ((97 <=? c) && (c <=? 122)) eqn:E.
  - apply andb_true_iff in E. destruct E as [E1 E2].
    apply Z.leb_le in E1, E2.
    replace (97 <=? c - 32) with false by (symmetry; apply Z.leb_gt; lia).
    reflexivity.
  - rewrite E. reflexivity.
Qed.

Lemma upperUnit_dash : upperUnit dash = dash.
Proof. reflexivity. Qed.

Lemma stripped_no_dash (kp : jsstring) : ~ In dash (stripped kp).
Proof.
  unfold stripped. intros Hin. apply filter_In in Hin. destruct Hin as [_ Hin].
  rewrite Z.eqb_refl in Hin. discriminate.
Qed.

Lemma filter_no_dash (s : jsstring) :
  ~ In dash s -> filter (fun c => negb (c =? dash)) s = s.
Proof.
  induction s as [|c s IH]; intros Hn; [reflexivity|].
  cbn [filter]. destruct (c =? dash) eqn:E.
  - apply Z.eqb_eq in E. exfalso. apply Hn. left. exact E.
  - cbn [negb]. rewrite IH; [reflexivity|]. intros H. apply Hn. right. exact H.
Qed.

Lemma toUpperCase_stripped (kp : jsstring) :
  toUpperCase (stripped kp) = stripped kp.
Proof.
  unfold stripped, toUpperCase.
  induction kp as [|c kp IH]; [reflexivity|].
  cbn [map filter]. destruct (upperUnit c =? dash); cbn [negb]; [exact IH|].
  cbn [map]. rewrite upperUnit_idem, IH. reflexivity.
Qed.

Lemma stripped_dashed (head subs : jsstring) :
  toUpperCase head = head -> toUpperCase subs = subs ->
  ~ In dash head -> ~ In dash subs ->
  stripped (dashed head subs) = head ++ subs.
Proof.
  intros Hh Hs Hnh Hns. unfold stripped, dashed.
  unfold toUpperCase in *. rewrite map_app, filter_app, Hh.
  rewrite (filter_no_dash head Hnh). f_equal.
  clear Hh Hnh head. induction subs as [|c subs IH]; [reflexivity|].
  cbn [map] in Hs. injection Hs as Hc Hs.
  cbn [map concat app filter].
  rewrite upperUnit_dash, Z.eqb_refl. cbn [negb]. rewrite Hc.
  replace (c =? dash) with false
    by (symmetry; apply Z.eqb_neq; intros E; apply Hns; left; exact E).
  cbn [negb]. f_equal. apply IH; [exact Hs|].
  intros H. apply Hns. right. exact H.
Qed.

Lemma toUpperCase_firstn (n : nat) (s : jsstring) :
  toUpperCase s = s -> toUpperCase (firstn n s) = firstn n s.
Proof.
  unfold toUpperCase. intros H. rewrite <- firstn_map, H. reflexivity.
Qed.

Lemma toUpperCase_skipn (n : nat) (s : jsstring) :
  toUpperCase s = s -> toUpperCase (skipn n s) = skipn n s.
Proof.
  unfold toUpperCase. intros H. rewrite <- skipn_map, H. reflexivity.
Qed.

Lemma formatKeyPad_stripped (kp : jsstring) :
  kp <> [] ->
  formatKeyPad kp = Some (dashed (firstn 3 (stripped kp)) (skipn 3 (stripped kp))).
Proof. intros Hne. exact (proj1 (formatKeyPad_parts kp Hne)). Qed.

Lemma stripped_formatted (kp : jsstring) :
  stripped (dashed (firstn 3 (stripped kp)) (skipn 3 (stripped kp))) = stripped kp.
Proof.
  pose proof (stripped_no_dash kp) as Hn.
  pose proof (toUpperCase_stripped kp) as Hu.
  rewrite stripped_dashed.
  - apply firstn_skipn.
  - apply toUpperCase_firstn, Hu.
  - apply toUpperCase_skipn, Hu.
  - intros H. apply Hn. rewrite <- (firstn_skipn 3 (stripped kp)).
    apply in_or_app. left. exact H.
  - intros H. apply Hn. rewrite <- (firstn_skipn 3 (stripped kp)).
    apply in_or_app. right. exact H.
Qed.

Lemma upperUnit_ascii (c : Z) : 0 <= c < 128 -> 0 <= upperUnit c < 128.
Proof.
  intros Hc. unfold upperUnit.
  destruct ((97 <=? c) && (c <=? 122)) eqn:E; [|exact Hc].
  apply andb_true_iff in E. destruct E as [E1 E2].
  apply Z.leb_le in E1, E2. lia.
Qed.

Lemma asciiOnly_stripped (kp : jsstring) : asciiOnly kp -> asciiOnly (stripped kp).
Proof.
  unfold asciiOnly, stripped, toUpperCase. intros H.
  apply Forall_forall. intros c Hc. apply filter_In in Hc.
  destruct Hc as [Hc _]. apply in_map_iff in Hc. destruct Hc as (d & <- & Hd).
  apply upperUnit_ascii. rewrite Forall_forall in H. apply H, Hd.
Qed.

Lemma asciiOnly_dashed (head subs : jsstring) :
  asciiOnly head -> asciiOnly subs -> asciiOnly (dashed head subs).
Proof.
  unfold asciiOnly, dashed. intros Hh Hs. apply Forall_app. split; [exact Hh|].
  induction Hs as [|c subs Hc _ IH]; [constructor|].
  cbn [map concat app]. constructor; [unfold dash; lia|].
  constructor; [exact Hc | exact IH].
Qed.

(** X1: formatting is idempotent on ASCII input.  Whatever
    [formatKeyPad] returns for a string of ASCII characters, if it is
    not the empty string, is a string of ASCII characters that a second
    [formatKeyPad] leaves unchanged: the upper-casing, the removal of
    the dashes and their insertion after the third character and
    between the following ones reach a fixed point in one step. *)
Theorem formatKeyPad_idempotent (kp F : jsstring) :
  asciiOnly kp ->
  formatKeyPad kp = Some F -> F <> [] ->
  asciiOnly F /\ formatKeyPad F = Some F.
Proof.
  intros Hascii Hf HF.
  assert (Hne : kp <> []) by (intros ->; discriminate Hf).
  rewrite (formatKeyPad_stripped kp Hne) in Hf.
  assert (EF : F = dashed (firstn 3 (stripped kp)) (skipn 3 (stripped kp)))
    by congruence.
  split.
  - rewrite EF.
    pose proof (asciiOnly_stripped kp Hascii) as HT.
    rewrite <- (firstn_skipn 3 (stripped kp)) in HT.
    apply Forall_app in HT. destruct HT as [H1 H2].
    apply asciiOnly_dashed; assumption.
  - rewrite (formatKeyPad_stripped F HF). rewrite EF at 1 2.
    rewrite stripped_formatted. symmetry. f_equal. exact EF.
Qed.

(** The theorem at a concrete input. *)
Lemma formatKeyPad_idempotent_witness :
  asciiOnly (js "A02-3-5") /\ formatKeyPad (js "A02-3-5") = Some (js "A02-3-5").
Proof.
  apply (formatKeyPad_idempotent (js "a0235") (js "A02-3-5"));
    [apply Forall_forall; intros c Hc; cbn in Hc; lia
    | reflexivity | discriminate].
Defined.

(** X2: on ASCII input, [formatKeyPad] and [getPos] see neither the case
    of the letters nor the dashes: two non-empty strings of ASCII
    characters that agree once upper-cased and stripped of their dashes
    are formatted to the same string and decode to the same position,
    in exact arithmetic and on the doubles of the code alike. *)
Theorem getPos_case_dash_insensitive (kp kp' : jsstring) :
  asciiOnly kp -> asciiOnly kp' ->
  kp <> [] -> kp' <> [] -> stripped kp = stripped kp' ->
  formatKeyPad kp = formatKeyPad kp'
  /\ getPos kp = getPos kp'
  /\ B64.getPos kp = B64.getPos kp'.
Proof.
  intros _ _ H H' E.
  assert (Ef : formatKeyPad kp = formatKeyPad kp').
  { rewrite (formatKeyPad_stripped kp H), (formatKeyPad_stripped kp' H'), E.
    reflexivity. }
  split; [exact Ef|].
  split; [unfold getPos | unfold B64.getPos]; rewrite Ef; reflexivity.
Qed.

(** The theorem at a concrete input. *)
Lemma getPos_case_dash_insensitive_witness :
  formatKeyPad (js "a0235") = formatKeyPad (js "A-02-35")
  /\ getPos (js "a0235") = getPos (js "A-02-35")
  /\ B64.getPos (js "a0235") = B64.getPos (js "A-02-35").
Proof.
  apply getPos_case_dash_insensitive;
    [apply Forall_forall; intros c Hc; cbn in Hc; lia
    | apply Forall_forall; intros c Hc; cbn in Hc; lia
    | discriminate | discriminate | reflexivity].
Defined.

End Canonical.

(* ------------------------------------------------------------------ *)
(** ** Decoding, then encoding *)

Section Reverse.
Local Open Scope Q_scope.

Lemma subXYof_Z (d : Z) :
  (1 <= d <= 9)%Z ->
  subXof d == inject_Z (subColumn d) /\ subYof d == inject_Z (subRow d)
  /\ (0 <= subColumn d < 3)%Z /\ (0 <= subRow d < 3)%Z
  /\ (10 - (subRow d + 1) * 3 + subColumn d)%Z = d.
Proof.
  intros Hd.
  assert (E : (d = 1 \/ d = 2 \/ d = 3 \/ d = 4 \/ d = 5 \/ d = 6 \/ d = 7
               \/ d = 8 \/ d = 9)%Z) by lia.
  destruct E as [->|[->|[->|[->|[->|[->|[->|[->| ->]]]]]]]];
    repeat split; try reflexivity; try discriminate.
Qed.

Lemma cornerZ_snoc (f : Z -> Z) (ds : list Z) (d m : Z) :
  cornerZ f (ds ++ [d]) m = (3 * cornerZ f ds m + f d)%Z.
Proof. unfold cornerZ. rewrite fold_left_app. reflexivity. Qed.

Lemma cornerZ_nonneg (f : Z -> Z) (ds : list Z) :
  Forall (fun d => 0 <= f d < 3)%Z ds ->
  forall m, (0 <= m)%Z -> (0 <= cornerZ f ds m)%Z.
Proof.
  induction 1 as [|d ds Hd _ IH]; intros m Hm; [exact Hm|].
  cbv beta in Hd. unfold cornerZ. cbn [fold_left]. apply IH. lia.
Qed.

Lemma decodeSubs_corner (ds : list Z) :
  Forall (fun d => 1 <= d <= 9)%Z ds ->
  forall (i : nat) (la ln : Q) (mx my : Z),
    la == interval i * inject_Z mx ->
    ln == interval i * inject_Z my ->
    fst (decodeSubs ds (S i) la ln)
    == interval (i + length ds) * inject_Z (cornerZ subColumn ds mx)
    /\ snd (decodeSubs ds (S i) la ln)
       == interval (i + length ds) * inject_Z (cornerZ subRow ds my).
Proof.
  induction 1 as [|d ds Hd _ IH]; intros i la ln mx my Hla Hln.
  - cbn [decodeSubs fst snd length cornerZ fold_left]. rewrite Nat.add_0_r.
    split; assumption.
  - cbn [decodeSubs length]. rewrite Nat.add_1_r, Nat.add_succ_r.
    destruct (subXYof_Z d Hd) as (Ex & Ey & _).
    apply (IH (S i) _ _ (3 * mx + subColumn d)%Z (3 * my + subRow d)%Z).
    + rewrite Hla, Ex, (interval_S i), inject_Z_plus, inject_Z_mult.
      change (inject_Z 3) with 3. ring.
    + rewrite Hln, Ey, (interval_S i), inject_Z_plus, inject_Z_mult.
      change (inject_Z 3) with 3. ring.
Qed.

Lemma Qfloor_half (M : Z) : Qfloor (inject_Z M + (1 # 2)) = M.
Proof.
  unfold Qfloor, Qplus, inject_Z. cbn [Qnum Qden].
  change (Z.pos (1 * 2)) with 2%Z.
  symmetry. apply Z.div_unique with 1%Z; lia.
Qed.

Lemma Qfloor_centre (w x : Q) (M : Z) :
  0 < w -> x == w * inject_Z M + w / 2 -> Qfloor (x / w) = M.
Proof.
  intros Hw Hx. rewrite <- (Qfloor_half M). apply Qfloor_comp.
  rewrite Hx. field. lra.
Qed.

(** The floors of all the coarser levels, read off the finest one. *)
Lemma Qfloor_levels (f : Z -> Z) (x : Q) (m0 : Z) (ds : list Z) :
  Forall (fun d => 0 <= f d < 3)%Z ds -> (0 <= m0)%Z ->
  Qfloor (x / interval (length ds)) = cornerZ f ds m0 ->
  Qfloor (x / interval 0) = m0
  /\ map (fun k => Z.rem (Qfloor (x / interval k)) 3) (seq 1 (length ds))
     = map f ds.
Proof.
  induction ds as [|d ds IH] using rev_ind; intros Hf Hm HF.
  - split; [exact HF | reflexivity].
  - apply Forall_app in Hf. destruct Hf as [Hf Hd].
    apply Forall_inv in Hd.
    rewrite length_app in *. cbn [length] in *. rewrite Nat.add_1_r in *.
    rewrite cornerZ_snoc in HF.
    pose proof (cornerZ_nonneg f ds Hf m0 Hm) as Hc.
    assert (HF' : Qfloor (x / interval (length ds)) = cornerZ f ds m0).
    { rewrite Qfloor_interval_S, HF.
      symmetry. apply Z.div_unique with (f d); lia. }
    destruct (IH Hf Hm HF') as [E0 Em]. split; [exact E0|].
    rewrite seq_S, !map_app, Em. cbn [map Nat.add]. rewrite HF.
    do 2 f_equal. rewrite Z.rem_mod_nonneg by lia.
    symmetry. apply Z.mod_unique with (cornerZ f ds m0); lia.
Qed.

Lemma map_combine_digits (fx fy : nat -> Z) (ds : list Z) (l : list nat) :
  Forall (fun d => 1 <= d <= 9)%Z ds ->
  map fx l = map subColumn ds -> map fy l = map subRow ds ->
  map (fun k => 10 - (fy k + 1) * 3 + fx k)%Z l = ds.
Proof.
  intros Hd. revert l.
  induction Hd as [|d ds Hd _ IH]; intros [|k l] Ex Ey; try discriminate.
  - reflexivity.
  - cbn [map] in *. injection Ex as Ex1 Ex. injection Ey as Ey1 Ey.
    rewrite Ex1, Ey1, (IH l Ex Ey).
    destruct (subXYof_Z d Hd) as (_ & _ & _ & _ & E). rewrite E. reflexivity.
Qed.

Lemma digits_subColumn (ds : list Z) :
  Forall (fun d => 1 <= d <= 9)%Z ds ->
  Forall (fun d => 0 <= subColumn d < 3)%Z ds
  /\ Forall (fun d => 0 <= subRow d < 3)%Z ds.
Proof.
  intros H. split; (eapply Forall_impl; [|exact H]); cbv beta; intros d Hd;
    destruct (subXYof_Z d Hd) as (_ & _ & Hx & Hy & _); assumption.
Qed.

(** The decoded centre of a canonical keypad, by its integer corner. *)
Lemma getPos_keypadString_corner (L N : Z) (ds : list Z) :
  (65 <= L <= 90)%Z -> (1 <= N <= 99)%Z ->
  Forall (fun d => 1 <= d <= 9)%Z ds ->
  exists la ln : Q,
    getPos (keypadString L N ds) = Ok {| lat := QFin la; lng := QFin ln |}
    /\ la == interval (length ds) * inject_Z (cornerZ subColumn ds (L - 65))
          + interval (length ds) / 2
    /\ ln == interval (length ds) * inject_Z (cornerZ subRow ds (N - 1))
          + interval (length ds) / 2.
Proof.
  intros HL HN Hd.
  pose proof (getPos_keypadString L N ds HL HN Hd) as Hg. cbv zeta in Hg.
  destruct (decodeSubs_corner ds Hd 0
              (0 + 300 * (inject_Z L - 65)) (0 + 300 * (inject_Z N - 1))
              (L - 65) (N - 1)) as [Ea En].
  { rewrite interval_0. unfold Zminus. rewrite inject_Z_plus, inject_Z_opp.
    change (inject_Z 65) with 65. ring. }
  { rewrite interval_0. unfold Zminus. rewrite inject_Z_plus, inject_Z_opp.
    change (inject_Z 1) with 1. ring. }
  cbn [Nat.add] in Ea, En.
  eexists _, _. split; [exact Hg|]. split.
  - rewrite Ea. reflexivity.
  - rewrite En. reflexivity.
Qed.

(** X3: decoding, then encoding.  For a keypad made of a letter A..Z, a
    two-digit row number 01..99 and sub-keypad digits 1..9, [getPos]
    returns a position of two numbers, and [getKP] on that position
    (its first argument the decoded [lng], its second the decoded
    [lat]) at the precision that yields as many sub-keypad digits
    returns the keypad itself. *)
Theorem getPos_getKP_roundtrip (L N : Z) (ds : list Z)
    (precision : option Q) (zoom : Q) :
  (65 <= L <= 90)%Z -> (1 <= N <= 99)%Z ->
  Forall (fun d => 1 <= d <= 9)%Z ds ->
  subKeypadCount (effectivePrecision precision zoom) = length ds ->
  exists la ln : Q,
    getPos (keypadString L N ds) = Ok {| lat := QFin la; lng := QFin ln |}
    /\ getKP ln la precision zoom = keypadString L N ds.
Proof.
  intros HL HN Hd Hp.
  destruct (getPos_keypadString_corner L N ds HL HN Hd) as (la & ln & Hg & Ea & En).
  exists la, ln. split; [exact Hg|].
  destruct (digits_subColumn ds Hd) as [Hc Hr].
  pose proof (interval_pos (length ds)) as Hw.
  assert (Fa := Qfloor_centre _ _ _ Hw Ea).
  assert (Fn := Qfloor_centre _ _ _ Hw En).
  destruct (Qfloor_levels subColumn la (L - 65) ds Hc ltac:(lia) Fa) as [A0 Am].
  destruct (Qfloor_levels subRow ln (N - 1) ds Hr ltac:(lia) Fn) as [N0 Nm].
  assert (Hla : 0 <= la /\ la < 7800).
  { destruct (Qfloor_cell la 0) as [H1 H2]. rewrite A0 in H1, H2.
    rewrite interval_0 in H1, H2.
    assert (B1 : 0 <= inject_Z (L - 65)) by (change 0 with (inject_Z 0); rewrite <- Zle_Qle; lia).
    assert (B2 : inject_Z (L - 65) <= 25) by (change 25 with (inject_Z 25); rewrite <- Zle_Qle; lia).
    split; lra. }
  assert (Hln : 0 <= ln).
  { destruct (Qfloor_cell ln 0) as [H1 _]. rewrite N0 in H1.
    rewrite interval_0 in H1.
    assert (B1 : 0 <= inject_Z (N - 1)) by (change 0 with (inject_Z 0); rewrite <- Zle_Qle; lia).
    lra. }
  rewrite (getKP_keypadString ln la precision zoom Hln Hla), Hp, A0, N0.
  replace (65 + (L - 65))%Z with L by lia.
  replace (N - 1 + 1)%Z with N by lia.
  f_equal. apply (map_combine_digits _ _ ds _ Hd Am Nm).
Qed.

(** The theorem at a concrete input. *)
Lemma getPos_getKP_roundtrip_witness :
  exists la ln : Q,
    getPos (js "C07-4-9") = Ok {| lat := QFin la; lng := QFin ln |}
    /\ getKP ln la (Some 4) 0 = js "C07-4-9".
Proof.
  apply (getPos_getKP_roundtrip 67 7 [4; 9]%Z (Some 4) 0);
    [lia | lia | repeat constructor; lia | reflexivity].
Defined.

End Reverse.

(* ------------------------------------------------------------------ *)
(** ** The macro cell, the two encoders and [pad] *)

Section Encoders.
Local Open Scope Q_scope.



(** X6: within the 26 lettered columns and the 99 numbered rows, what
    [getKP] returns is already in the format of the input fields:
    [formatKeyPad] returns it unchanged. *)
Theorem getKP_output_canonical (lat lng : Q) (precision : option Q) (zoom : Q) :
  0 <= lat -> lat < 29700 -> 0 <= lng -> lng < 7800 ->
  formatKeyPad (getKP lat lng precision zoom)
  = Some (getKP lat lng precision zoom).
Proof.
  intros Hlat Hlat' Hlng Hlng'.
  rewrite (getKP_keypadString lat lng precision zoom Hlat (conj Hlng Hlng')).
  pose proof (Qfloor_interval_nonneg lng 0 Hlng) as B1.
  pose proof (Qfloor_interval_nonneg lat 0 Hlat) as B2.
  pose proof (Qfloor_interval_0_upper lng 26 ltac:(change (inject_Z 26 * 300) with 7800; exact Hlng')) as B3.
  pose proof (Qfloor_interval_0_upper lat 99 ltac:(change (inject_Z 99 * 300) with 29700; exact Hlat')) as B4.
  destruct (keypadString_dashed (65 + Qfloor (lng / interval 0))
              (Qfloor (lat / interval 0) + 1)
              (map (encodeDigit lng lat)
                 (seq 1 (subKeypadCount (effectivePrecision precision zoom)))))
    as (a & b & subs & E & Hk & _); [lia | lia | |].
  - apply Forall_map, Forall_forall. intros k _.
    apply encodeDigit_range; assumption.
  - rewrite E. apply formatKeyPad_dashed. exact Hk.
Qed.

(** The theorem at a concrete input. *)
Lemma getKP_output_canonical_witness :
  formatKeyPad (getKP 1000 2000 (Some 5) 0) = Some (getKP 1000 2000 (Some 5) 0).
Proof.
  apply getKP_output_canonical; reflexivity || discriminate.
Defined.

(** X7: the two encoders agree.  With an explicit precision other than
    0, the [getKP] of the map widget on ([lat], [lng]) returns what the
    [getKP] of the utilities module returns on the two coordinates
    scaled by [mapToGameScale], as long as these are not negative and
    the column is one of the 26 lettered ones (outside of this the
    utilities module answers with its sentinel or shifts the letter,
    which the widget does not). *)
Theorem minimap_getKP_agrees (s lat lng p zoom roundedZoom : Q) :
  Qeq_bool p 0 = false ->
  0 <= lat * s -> 0 <= lng * s -> lng * s < 7800 ->
  minimap_getKP s lat lng (Some p) roundedZoom
  = getKP (lat * s) (lng * s) (Some p) zoom.
Proof.
  intros Hp Hlat Hlng Hmax. unfold minimap_getKP, getKP.
  rewrite (Qlt_bool_false _ 0 Hlng), (Qlt_bool_false _ 0 Hlat).
  cbn [orb notPrecision]. cbv zeta. rewrite Hp. cbv iota. rewrite Hp.
  pose proof (Qfloor_interval_0_upper (lng * s) 26 ltac:(change (inject_Z 26 * 300) with 7800; exact Hmax)) as B3.
  replace (65 + Qfloor (lng * s / interval 0) >? 90)%Z with false
    by (symmetry; rewrite Z.gtb_ltb; apply Z.ltb_ge; lia).
  reflexivity.
Qed.

(** The theorem at a concrete input. *)
Lemma minimap_getKP_agrees_witness :
  minimap_getKP (3 # 2) 1000 2000 (Some 5) 3
  = getKP (1000 * (3 # 2)) (2000 * (3 # 2)) (Some 5) 0.
Proof.
  apply minimap_getKP_agrees; reflexivity || discriminate.
Defined.

(** X8: [pad(num, size)], for a size from 1 to 4 and an integer from 0
    to 999, returns exactly [size] characters that read back as
    [num mod 10 ^ size]: zeros are added on the left of a short number,
    and the leading digits of a long one are dropped, so that a row
    number above 99 loses its hundreds. *)
Theorem pad_keeps_last_digits (n : Z) (size : nat) :
  (1 <= size <= 4)%nat -> (0 <= n <= 999)%Z ->
  length (pad n size) = size
  /\ Number (pad n size) = QFin (inject_Z (n mod 10 ^ Z.of_nat size)).
Proof.
  intros Hs Hn.
  assert (H : padLastDigits size n = true).
  { assert (E : (size = 1 \/ size = 2 \/ size = 3 \/ size = 4)%nat) by lia.
    destruct E as [->|[->|[->| ->]]];
      (apply (forallb_range (padLastDigits _) 0 (Z.to_nat 1000));
       [vm_compute; reflexivity | rewrite Z2Nat.id; lia]). }
  unfold padLastDigits in H. apply andb_true_iff in H. destruct H as [H1 H2].
  split; [apply Nat.eqb_eq, H1 | apply isNumber_eq, H2].
Qed.

(** The theorem at a concrete input. *)
Lemma pad_keeps_last_digits_witness :
  length (pad 100 2) = 2%nat
  /\ Number (pad 100 2) = QFin (inject_Z (100 mod 10 ^ Z.of_nat 2)).
Proof.
  apply pad_keeps_last_digits; lia.
Defined.

End Encoders.

(* ------------------------------------------------------------------ *)
(** ** Distance *)

Section Geometry.
Local Open Scope R_scope.

Lemma div_Fin (x y : R) : y <> 0 -> (Fin x / Fin y)%rn = Fin (x / y).
Proof.
  intros Hy. cbn [RNum.div].
  destruct (Rtotal_order y 0) as [H|[H|H]]; [| contradiction |].
  - rewrite (Rltb_true y 0 H). reflexivity.
  - rewrite (Rltb_true 0 y H). rewrite orb_true_r. reflexivity.
Qed.

(** X9: [getDist] is symmetric, and it is never negative: for all
    arguments, not-a-number and the infinities included, the distance
    from [a] to [b] is the distance from [b] to [a], and it is not below
    0. *)
Theorem getDist_symmetric_nonneg (a b : LatLng rnum) :
  getDist a b = getDist b a /\ RNum.ltb (getDist a b) (lit 0) = false.
Proof.
  unfold getDist.
  destruct a as [[|[]|x1] [|[]|y1]], b as [[|[]|x2] [|[]|y2]];
    cbn [lat lng RNum.sub RNum.add RNum.neg RNum.hypot Bool.eqb negb];
    try (split; reflexivity).
  split.
  - do 2 f_equal. ring.
  - unfold lit. cbn [RNum.ltb]. apply Rltb_false. apply sqrt_pos.
Qed.

(** The bearing on finite points, from the angle of the direction. *)
Lemma getBearing_finite (x1 y1 x2 y2 : R) :
  getBearing (point x1 y1) (point x2 y2)
  = let d := RNum.Ratan2 (y2 - y1) (x2 - x1) * 180 / PI + 90 in
    Fin (if RNum.Rltb d 0 then d + 360 else d).
Proof.
  unfold getBearing, point.
  cbn [lat lng RNum.sub RNum.add RNum.neg RNum.atan2 RNum.mul RNum.div RNum.PI lit].
  rewrite PI_divisor. unfold lit. cbn [RNum.add RNum.ltb]. cbv zeta.
  fold (y2 - y1) (x2 - x1).
  destruct (RNum.Rltb _ 0); reflexivity.
Qed.

End Geometry.

(* ------------------------------------------------------------------ *)
(** ** Level ground, and [isMultiple] *)

Section Solver.
Local Open Scope R_scope.

(** X12: the range on level ground.  With a positive gravity, a
    positive distance and no height difference, [getElevation] returns
    not-a-number exactly when the distance exceeds [vel^2 / gravity],
    [gravity] being [globalData.gravity] times the weapon's
    [gravityScale]. *)
Theorem getElevation_level_max_range (g : GlobalData) (gr gs dist vel : R) :
  gravity g = Fin gr -> gravityScale (activeWeapon g) = Fin gs ->
  0 < gr * gs -> 0 < dist ->
  (getElevation g (Fin dist) (Fin 0) (Fin vel) = NaN
   <-> vel ^ 2 / (gr * gs) < dist).
Proof.
  intros Hg Hgs HG Hd.
  rewrite (getElevation_finite g gr gs dist 0 vel Hg Hgs HG Hd). cbv zeta.
  set (G := gr * gs) in *.
  assert (Hv : 0 <= vel ^ 2) by nra.
  assert (Hq : vel ^ 2 / G < dist <-> vel ^ 2 < G * dist).
  { split; intros H.
    - apply (Rmult_lt_compat_r G) in H; [|exact HG].
      replace (vel ^ 2 / G * G) with (vel ^ 2) in H by (field; lra). lra.
    - apply Rmult_lt_reg_r with G; [exact HG|].
      replace (vel ^ 2 / G * G) with (vel ^ 2) by (field; lra). lra. }
  assert (Hdisc : vel ^ 4 - G * (G * dist ^ 2 + 2 * 0 * vel ^ 2)
                  = (vel ^ 2 - G * dist) * (vel ^ 2 + G * dist)) by ring.
  rewrite Hdisc, Hq.
  assert (Hpos : 0 < G * dist) by nra.
  unfold RNum.Rltb. destruct (Rlt_dec _ 0) as [H|H].
  - split; [intros _ | reflexivity]. nra.
  - split; [discriminate | intros H']. exfalso. apply H. nra.
Qed.

(** The theorem at a concrete input. *)
Lemma getElevation_level_max_range_witness :
  getElevation sampleGlobalData (Fin 2000) (Fin 0) (Fin 110) = NaN
  <-> 110 ^ 2 / (98 / 10 * 1) < 2000.
Proof.
  apply (getElevation_level_max_range sampleGlobalData (98 / 10) 1 2000 110);
    [reflexivity | reflexivity | lra | lra].
Defined.

(** X14: nothing is a multiple of zero: [isMultiple(0, b)] is false
    for every [b], not-a-number and the infinities included (the
    quotient is infinite or not-a-number, and so is its distance to its
    rounding). *)
Theorem isMultiple_zero (b : rnum) : isMultiple (lit 0) b = false.
Proof.
  unfold isMultiple, lit.
  destruct b as [|[]|x]; cbn [RNum.div]; try reflexivity.
  - rewrite (Rltb_false 0 0) by lra. reflexivity.
  - rewrite (Rltb_false 0 0) by lra. reflexivity.
  - rewrite (Rltb_false 0 0) by lra. cbn [orb]. unfold RNum.scaleInf.
    destruct (RNum.Rltb 0 x); [reflexivity|].
    destruct (RNum.Rltb x 0); reflexivity.
Qed.

(** X15: for finite numbers and [a] other than zero, [isMultiple(a, b)]
    is true exactly when [b / a] is within 0.0001 of an integer: it is
    [b] that is tested for being a multiple of [a]. *)
Theorem isMultiple_near_integer (a b : R) :
  a <> 0 ->
  (isMultiple (Fin a) (Fin b) = true
   <-> exists k : Z, Rabs (b / a - IZR k) < 1 / 10000).
Proof.
  intros Ha. unfold isMultiple.
  assert (Ediv : (Fin b / Fin a)%rn = Fin (b / a)).
  { cbn [RNum.div].
    destruct (Rtotal_order a 0) as [H|[H|H]]; [| contradiction |].
    - rewrite (Rltb_true a 0 H). reflexivity.
    - rewrite (Rltb_true 0 a H), orb_true_r. reflexivity. }
  rewrite Ediv. set (t := b / a). cbn [RNum.round geb RNum.ltb].
  set (r := IZR (Int_part (t + / 2))).
  assert (Hr : r <= t + / 2 < r + 1).
  { destruct (base_Int_part (t + / 2)) as [H1 H2]. unfold r. lra. }
  assert (Hd : (if negb (RNum.Rltb t r) then (Fin t - Fin r)%rn
                else (Fin r - Fin t)%rn) = Fin (Rabs (t - r))).
  { unfold RNum.Rltb. destruct (Rlt_dec t r) as [H|H]; cbn [negb RNum.sub RNum.neg RNum.add].
    - rewrite Rabs_left by lra. f_equal. ring.
    - rewrite Rabs_right by lra. reflexivity. }
  rewrite Hd. cbn [RNum.ltb]. unfold RNum.Rltb.
  destruct (Rlt_dec (Rabs (t - r)) (1 / 10000)) as [H|H].
  - split; [intros _ | reflexivity]. exists (Int_part (t + / 2)). exact H.
  - split; [discriminate|]. intros [k Hk]. exfalso. apply H.
    assert (Ek : k = Int_part (t + / 2)).
    { apply Int_part_spec.
      apply Rabs_def2 in Hk. lra. }
    unfold r. rewrite <- Ek. exact Hk.
Qed.

(** The theorem at a concrete input. *)
Lemma isMultiple_near_integer_witness :
  isMultiple (Fin 3) (Fin 12) = true
  <-> exists k : Z, Rabs (12 / 3 - IZR k) < 1 / 10000.
Proof.
  apply isMultiple_near_integer. lra.
Defined.

End Solver.

(* ------------------------------------------------------------------ *)
(** ** Height differences and the verdicts of [shoot] *)

Section Height.
Local Open Scope R_scope.








Lemma getHeight_throw (env : Env) (a b : LatLng rnum) (e : exn) :
  outcome (getHeight env a b) = Throw e ->
  truthy (activeMap (globalData env)) = true
  /\ findMap (MAPS env) 0 (activeMap (globalData env)) = None.
Proof.
  unfold getHeight, getImageData, debugHeightmap, liftResult, getOffsetLatLng.
  destruct (truthy _); cbn [negb]; [|cbn; discriminate].
  destruct (findMap _ _ _) as [m|]; [|intros _; split; reflexivity].
  cbn. destruct (debugActive _); cbn;
    repeat match goal with
           | |- context [if ?c then _ else _] => destruct c; cbn
           end; discriminate.
Qed.

(** X18: every solve ends in one verdict.  When [shoot] returns, it has
    shown exactly one of: an error, the placeholders of an imprecise
    input, a result; and it returns nothing exactly when that is a
    result, 1 otherwise.  When [shoot] throws, it has shown none of
    them, and the active map is a truthy value that [MAPS.find] does not
    find. *)
Theorem shoot_verdict (env : Env) (a b : jsstring) :
  let s := shoot env a b in
  match outcome s with
  | Ok Return1 => exists v, verdicts (trace s) = [v] /\ isInsert v = false
  | Ok ReturnUndefined => exists v, verdicts (trace s) = [v] /\ isInsert v = true
  | Throw _ =>
      verdicts (trace s) = []
      /\ truthy (activeMap (globalData env)) = true
      /\ findMap (MAPS env) 0 (activeMap (globalData env)) = None
  end.
Proof.
  intros s.
  assert (Hs : s = shoot env a b) by reflexivity. clearbody s.
  unfold shoot in Hs.
  destruct ((length a <? 3)%nat || (length b <? 3)%nat) eqn:Hguard.
  - subst s. cbn. eexists. split; reflexivity.
  - apply orb_false_iff in Hguard. destruct Hguard as [Ha Hb].
    apply Nat.ltb_ge in Ha, Hb.
    destruct (getPos_nonempty a) as [aPos HaPos];
      [destruct a; cbn in Ha; [lia|discriminate]|].
    destruct (getPos_nonempty b) as [bPos HbPos];
      [destruct b; cbn in Hb; [lia|discriminate]|].
    rewrite HaPos, HbPos in Hs.
    unfold call, liftResult, showError in Hs.
    cbn [bind emit ret app] in Hs. cbv zeta in Hs.
    pose proof (getHeight_no_verdict env (ofQ aPos) (ofQ bPos)) as Hnv.
    pose proof (getHeight_throw env (ofQ aPos) (ofQ bPos)) as Hth.
    set (h := getHeight env (ofQ aPos) (ofQ bPos)) in *. clearbody h.
    unfold verdicts in Hnv.
    destruct (RNum.isNaN (lng (ofQ aPos))), (RNum.isNaN (lng (ofQ bPos)));
      cbn [orb andb bind emit ret app] in Hs;
      try (subst s; cbn; eexists; split; reflexivity).
    destruct h as [th [[height| |]|e]]; cbn [trace outcome fst snd] in *;
      cbn [bind emit ret app] in Hs.
    + set (w := activeWeapon (globalData env)) in *.
      set (distance := getDist (ofQ aPos) (ofQ bPos)) in *.
      set (vel := getVelocity w distance) in *.
      set (elev := convertElevation w
                     (getElevation (globalData env) distance height vel)) in *.
      destruct (RNum.isNaN elev); [|destruct (RNum.gtb elev _)];
        subst s; cbn [trace outcome fst snd bind emit ret app];
        unfold verdicts; cbn [filter isVerdict]; rewrite filter_app, Hnv;
        cbn; eexists; split; reflexivity.
    + subst s. cbn [trace outcome fst snd]. unfold verdicts.
      cbn [filter isVerdict]. rewrite filter_app, Hnv.
      cbn; eexists; split; reflexivity.
    + subst s. cbn [trace outcome fst snd]. unfold verdicts.
      cbn [filter isVerdict]. rewrite filter_app, Hnv.
      cbn; eexists; split; reflexivity.
    + subst s. cbn [trace outcome fst snd]. unfold verdicts.
      cbn [filter isVerdict]. rewrite Hnv.
      split; [reflexivity|]. exact (Hth e eq_refl).
Qed.

End Height.

(* ------------------------------------------------------------------ *)
(** ** The solve of the map UI *)

Section MapUI.
Local Open Scope R_scope.

Lemma getHeight_returns (env : Env) (m : MapEntry) (a b : LatLng rnum) :
  findMap (MAPS env) 0 (activeMap (globalData env)) = Some m ->
  exists h, outcome (getHeight env a b) = Ok h.
Proof.
  intros Hf.
  destruct (outcome (getHeight env a b)) as [h|e] eqn:E; [eauto|].
  apply getHeight_throw in E. destruct E as [_ E]. congruence.
Qed.

Lemma getBearing_cardinal (x1 y1 x2 y2 : R) :
  (x2 = x1 -> y2 < y1 -> getBearing (point x1 y1) (point x2 y2) = Fin 0)
  /\ (y2 = y1 -> x1 < x2 -> getBearing (point x1 y1) (point x2 y2) = Fin 90)
  /\ (x2 = x1 -> y1 < y2 -> getBearing (point x1 y1) (point x2 y2) = Fin 180)
  /\ (y2 = y1 -> x2 < x1 -> getBearing (point x1 y1) (point x2 y2) = Fin 270).
Proof.
  pose proof PI_RGT_0 as Hpi.
  rewrite getBearing_finite. cbv zeta. unfold RNum.Ratan2.
  repeat split; intros -> H.
  - replace (x1 - x1) with 0 by ring.
    rewrite (Rltb_false 0 0), (Rltb_false 0 (y2 - y1)), (Rltb_true (y2 - y1) 0) by lra.
    replace (- (PI / 2) * 180 / PI + 90) with 0 by (field; lra).
    rewrite (Rltb_false 0 0) by lra. reflexivity.
  - replace (y1 - y1) with 0 by ring.
    rewrite (Rltb_true 0 (x2 - x1)) by lra.
    replace (0 / (x2 - x1)) with 0 by (field; lra). rewrite atan_0.
    replace (0 * 180 / PI + 90) with 90 by (field; lra).
    rewrite (Rltb_false 90 0) by lra. reflexivity.
  - replace (x1 - x1) with 0 by ring.
    rewrite (Rltb_false 0 0), (Rltb_true 0 (y2 - y1)) by lra.
    replace (PI / 2 * 180 / PI + 90) with 180 by (field; lra).
    rewrite (Rltb_false 180 0) by lra. reflexivity.
  - replace (y1 - y1) with 0 by ring.
    rewrite (Rltb_false 0 (x2 - x1)), (Rltb_true (x2 - x1) 0), (Rltb_false 0 0) by lra.
    replace (0 / (x2 - x1)) with 0 by (field; lra). rewrite atan_0.
    replace ((0 + PI) * 180 / PI + 90) with 270 by (field; lra).
    rewrite (Rltb_false 270 0) by lra. reflexivity.
Qed.

Lemma uiLatLng_finite (sz ms la ln : R) :
  ms <> 0 ->
  uiLatLng (Fin sz / Fin ms)%rn {| lat := Fin la; lng := Fin ln |}
  = point (ln * (sz / ms)) (la * - (sz / ms)).
Proof.
  intros Hms. unfold uiLatLng, point. rewrite div_Fin by exact Hms. reflexivity.
Qed.

(** X21: the bearings of [getCalcFromUI] on the map.  With the active
    map found, its size and [globalData.mapSize] positive, and the two
    markers at finite map coordinates, [getCalcFromUI] returns, and its
    bearing is 0 when the target has the same [lng] and a greater [lat]
    than the weapon, 90 for the same [lat] and a greater [lng], 180 for
    the same [lng] and a smaller [lat], 270 for the same [lat] and a
    smaller [lng]. *)
Theorem getCalcFromUI_cardinal (env : Env) (m : MapEntry) (sz ms : R)
    (alat alng blat blng : R) :
  findMap (MAPS env) 0 (activeMap (globalData env)) = Some m ->
  size m = Fin sz -> 0 < sz -> 0 < ms ->
  exists res,
    outcome (getCalcFromUI env (Fin ms) {| lat := Fin alat; lng := Fin alng |}
               {| lat := Fin blat; lng := Fin blng |}) = Ok res
    /\ (blng = alng -> alat < blat -> calcBearing res = Fin 0)
    /\ (blat = alat -> alng < blng -> calcBearing res = Fin 90)
    /\ (blng = alng -> blat < alat -> calcBearing res = Fin 180)
    /\ (blat = alat -> blng < alng -> calcBearing res = Fin 270).
Proof.
  intros Hf Hsz Hs Hm. unfold getCalcFromUI. rewrite Hf, Hsz. cbv zeta.
  rewrite !uiLatLng_finite by lra.
  set (k := sz / ms).
  assert (Hk : 0 < k) by (unfold k; apply Rdiv_lt_0_compat; assumption).
  destruct (getHeight_returns env m (point (alng * k) (alat * - k))
              (point (blng * k) (blat * - k)) Hf) as [h Hh].
  destruct (getHeight env _ _) as [t r]. cbn [outcome snd] in Hh. subst r.
  cbn [bind ret outcome snd]. eexists. split; [reflexivity|].
  cbn [calcBearing].
  destruct (getBearing_cardinal (alng * k) (alat * - k) (blng * k) (blat * - k))
    as (HN & HE & HS & HW).
  repeat split; intros E H.
  - apply HN; [rewrite E; reflexivity | nra].
  - apply HE; [rewrite E; reflexivity | nra].
  - apply HS; [rewrite E; reflexivity | nra].
  - apply HW; [rewrite E; reflexivity | nra].
Qed.

(** The theorem at a concrete input. *)
Lemma getCalcFromUI_cardinal_witness :
  exists res,
    outcome (getCalcFromUI sampleEnv (Fin 256) {| lat := Fin (-100); lng := Fin 50 |}
               {| lat := Fin (-20); lng := Fin 50 |}) = Ok res
    /\ (50 = 50 -> -100 < -20 -> calcBearing res = Fin 0)
    /\ (-20 = -100 -> 50 < 50 -> calcBearing res = Fin 90)
    /\ (50 = 50 -> -20 < -100 -> calcBearing res = Fin 180)
    /\ (-20 = -100 -> 50 < 50 -> calcBearing res = Fin 270).
Proof.
  apply (getCalcFromUI_cardinal sampleEnv sampleMap 4017 256);
    [reflexivity | reflexivity | lra | lra].
Defined.

Lemma mul_NaN_l (a : rnum) : (NaN * a)%rn = NaN.
Proof. destruct a; reflexivity. Qed.

Lemma mul_NaN_r (a : rnum) : (a * NaN)%rn = NaN.
Proof. destruct a; reflexivity. Qed.

Lemma add_NaN_r (a : rnum) : (a + NaN)%rn = NaN.
Proof. destruct a; reflexivity. Qed.

Lemma sub_NaN_r (a : rnum) : (a - NaN)%rn = NaN.
Proof. destruct a; reflexivity. Qed.

Lemma div_NaN_l (a : rnum) : (NaN / a)%rn = NaN.
Proof. destruct a; reflexivity. Qed.

Lemma elevationAngle_NaN (g : GlobalData) (dist vel : rnum) :
  elevationAngle (getElevationWithEllipseParams g dist NaN vel) = NaN.
Proof.
  unfold getElevationWithEllipseParams. cbv zeta. cbn [elevationAngle].
  rewrite mul_NaN_r, mul_NaN_l, add_NaN_r, mul_NaN_r, sub_NaN_r.
  cbn [RNum.sqrt]. rewrite mul_NaN_l, sub_NaN_r, div_NaN_l. reflexivity.
Qed.

Lemma convertElevation_NaN (w : Weapon) : convertElevation w NaN = NaN.
Proof.
  unfold convertElevation, radToMil, degToMil, radToDeg.
  rewrite mul_NaN_l, !div_NaN_l.
  destruct (streq (unit w) _); [reflexivity|].
  destruct (streq (name w) _); reflexivity.
Qed.

(** X22: a marker off the heightmap.  With the active map found, its
    size and [globalData.mapSize] positive and the two markers at
    finite map coordinates, when [getHeight] answers "AERROR" or
    "BERROR" for the two markers, [getCalcFromUI] still returns, and
    its elevation is the string "---": the height enters the solver as
    not-a-number, and so does the angle come out. *)
Theorem getCalcFromUI_off_map (env : Env) (m : MapEntry) (sz ms : R)
    (alat alng blat blng : R) :
  findMap (MAPS env) 0 (activeMap (globalData env)) = Some m ->
  size m = Fin sz -> 0 < sz -> 0 < ms ->
  (outcome (getHeight env
              (uiLatLng (Fin sz / Fin ms)%rn {| lat := Fin alat; lng := Fin alng |})
              (uiLatLng (Fin sz / Fin ms)%rn {| lat := Fin blat; lng := Fin blng |}))
   = Ok AERROR
   \/ outcome (getHeight env
                 (uiLatLng (Fin sz / Fin ms)%rn {| lat := Fin alat; lng := Fin alng |})
                 (uiLatLng (Fin sz / Fin ms)%rn {| lat := Fin blat; lng := Fin blng |}))
      = Ok BERROR) ->
  exists res,
    outcome (getCalcFromUI env (Fin ms) {| lat := Fin alat; lng := Fin alng |}
               {| lat := Fin blat; lng := Fin blng |}) = Ok res
    /\ calcElevation res = None.
Proof.
  intros Hf Hsz _ _ Hh. unfold getCalcFromUI. rewrite Hf, Hsz. cbv zeta.
  destruct (getHeight env _ _) as [t r]. cbn [outcome snd] in Hh.
  destruct Hh as [-> | ->]; cbn [bind ret outcome snd heightToNumber];
    eexists; (split; [reflexivity|]); cbn [calcElevation];
    rewrite elevationAngle_NaN, convertElevation_NaN; reflexivity.
Qed.

(** The theorem at a concrete input. *)
Lemma getCalcFromUI_off_map_witness :
  exists res,
    outcome (getCalcFromUI
               (mkEnv (mkGlobalData (Fin (98 / 10)) sampleWeapon
                         (VNumber (QFin 1)) false (lit 500))
                  [sampleMap; sampleMap] (imageData sampleEnv))
               (Fin 256) {| lat := Fin (-100); lng := Fin 50 |}
               {| lat := Fin (-20); lng := Fin 50 |}) = Ok res
    /\ calcElevation res = None.
Proof.
  apply (getCalcFromUI_off_map _ sampleMap 4017 256);
    [reflexivity | reflexivity | lra | lra | left; reflexivity].
Defined.

End MapUI.

(* ------------------------------------------------------------------ *)
(** ** The clipboard, the saved results and the spread ellipse *)

Section Page.
Local Open Scope R_scope.

Lemma streq_eq (s t : jsstring) : streq s t = true -> s = t.
Proof.
  revert t. induction s as [|c s IH]; intros [|d t]; cbn; try discriminate.
  - reflexivity.
  - intros H. apply andb_true_iff in H. destruct H as [H1 H2].
    apply Z.eqb_eq in H1. rewrite H1, (IH t H2). reflexivity.
Qed.

(** X24: [copyCalc] does not look at the weapon.  Its test on the name
    of the weapon, [name != "mortar" || name != "B-32"], holds for every
    name; so for every weapon a click on the high/low icon copies
    nothing and returns 1, and any other click, once a result is
    shown, copies the line of the target, the bearing and the
    elevation. *)
Theorem copyCalc_any_weapon (w : Weapon) (ready onDown onUp : bool)
    (targetVal bearingText elevationText : jsstring) :
  copyCalc w ready onDown onUp targetVal bearingText elevationText
  = if ready && negb (onDown || onUp)
    then ([PgAnimateCopy;
           PgCopy (targetVal ++ arrowSep ++ bearingText ++ dashSep
                   ++ elevationText);
           PgSetItem; PgTooltipEnable; PgTooltipShow], ReturnUndefined)
    else ([], Return1).
Proof.
  unfold copyCalc. destruct ready; [|reflexivity]. cbn [negb andb].
  assert (Hg : negb (streq (name w) (js "mortar"))
               || negb (streq (name w) (js "B-32")) = true).
  { destruct (streq (name w) (js "mortar")) eqn:E; [|reflexivity].
    apply streq_eq in E. rewrite E. reflexivity. }
  rewrite Hg. destruct (onDown || onUp); reflexivity.
Qed.

Lemma length_removeRow {row : Type} (i : nat) (rows : list row) :
  (i < length rows)%nat -> length (removeRow i rows) = pred (length rows).
Proof.
  revert i. induction rows as [|r rows IH]; intros i Hi; [cbn in Hi; lia|].
  destruct i as [|i]; [reflexivity|]. cbn [removeRow length].
  cbn [length] in Hi. rewrite IH by lia. lia.
Qed.

(** X25: the list of saved results.  If the list has at most four rows
    and is hidden exactly when it is empty, then so it is after
    [saveCalc] and after [RemoveSaves] of one of its rows; [saveCalc]
    puts the new row last, after all the former rows when they are
    fewer than four, and after all but the oldest when they are four. *)
Theorem saved_list_invariant {row : Type} (st : Saved row) (r : row) :
  savedOk st = true ->
  savedOk (saveCalc st r) = true
  /\ last (savedRows (saveCalc st r)) r = r
  /\ (length (savedRows st) < 4 ->
      savedRows (saveCalc st r) = savedRows st ++ [r])%nat
  /\ (length (savedRows st) = 4 ->
      savedRows (saveCalc st r) = tl (savedRows st) ++ [r])%nat
  /\ (forall i, i < length (savedRows st) ->
      savedOk (RemoveSaves st i) = true)%nat.
Proof.
  destruct st as [rows hidden]. unfold savedOk, saveCalc, RemoveSaves.
  cbn [savedRows savedHidden]. intros H.
  apply andb_true_iff in H. destruct H as [Hlen Hhid].
  apply Nat.leb_le in Hlen. apply eqb_prop in Hhid.
  split; [|split; [|split; [|split]]].
  - rewrite length_app. cbn [length].
    destruct (length rows =? 4)%nat eqn:E.
    + apply Nat.eqb_eq in E. destruct rows as [|x rows]; [discriminate|].
      cbn [tl length] in *.
      apply andb_true_iff. split; [apply Nat.leb_le; lia|].
      replace (length rows + 1 =? 0)%nat with false
        by (symmetry; apply Nat.eqb_neq; lia). reflexivity.
    + apply Nat.eqb_neq in E.
      apply andb_true_iff. split; [apply Nat.leb_le; lia|].
      replace (length rows + 1 =? 0)%nat with false
        by (symmetry; apply Nat.eqb_neq; lia). reflexivity.
  - apply last_last.
  - intros Hlt. replace (length rows =? 4)%nat with false
      by (symmetry; apply Nat.eqb_neq; lia). reflexivity.
  - intros E. rewrite E. reflexivity.
  - intros i Hi. rewrite (length_removeRow i rows Hi).
    apply andb_true_iff. split; [apply Nat.leb_le; lia|].
    destruct (length rows =? 1)%nat eqn:E.
    + apply Nat.eqb_eq in E. rewrite E. reflexivity.
    + apply Nat.eqb_neq in E. rewrite Hhid.
      replace (length rows =? 0)%nat with false
        by (symmetry; apply Nat.eqb_neq; lia).
      replace (pred (length rows) =? 0)%nat with false
        by (symmetry; apply Nat.eqb_neq; lia). reflexivity.
Qed.

(** The theorem at a concrete input. *)
Lemma saved_list_invariant_witness :
  savedOk (saveCalc (mkSaved [1; 2; 3; 4]%Z false) 5%Z) = true
  /\ savedRows (saveCalc (mkSaved [1; 2; 3; 4]%Z false) 5%Z) = [2; 3; 4; 5]%Z.
Proof.
  destruct (saved_list_invariant (mkSaved [1; 2; 3; 4]%Z false) 5%Z)
    as (H1 & _ & _ & H4 & _); [reflexivity|].
  split; [exact H1 | exact (H4 eq_refl)].
Defined.

Lemma abs_cases (a : rnum) :
  RNum.abs a = NaN \/ RNum.abs a = Infinity false
  \/ exists y, RNum.abs a = Fin y /\ 0 <= y.
Proof.
  destruct a as [| |x]; cbn; auto.
  right. right. exists (Rabs x). split; [reflexivity | apply Rabs_pos].
Qed.

Lemma nonNegative_lit0 : nonNegative (lit 0) = true.
Proof.
  unfold nonNegative, lit. cbn. rewrite (Rltb_false 0 0) by lra. reflexivity.
Qed.

Lemma nonNegative_Fin (y : R) : 0 <= y -> nonNegative (Fin y) = true.
Proof.
  intros H. unfold nonNegative, lit. cbn. rewrite (Rltb_false y 0) by lra.
  reflexivity.
Qed.

Lemma getVerticalSpread_nonNegative (g : GlobalData) (angle vel : rnum) :
  nonNegative (getVerticalSpread g angle vel) = true.
Proof.
  unfold getVerticalSpread. cbv zeta.
  destruct (abs_cases ((vel ** 2
      * RNum.sin (lit 2 * (angle - degToRad (moa (activeWeapon g) / lit 2 / lit 60)))
      / (gravity g * gravityScale (activeWeapon g))
      - vel ** 2
        * RNum.sin (lit 2 * (angle + degToRad (moa (activeWeapon g) / lit 2 / lit 60)))
        / (gravity g * gravityScale (activeWeapon g)))%rn))
    as [E|[E|(y & E & Hy)]]; rewrite E; cbn [RNum.isNaN].
  - apply nonNegative_lit0.
  - reflexivity.
  - apply nonNegative_Fin, Hy.
Qed.

Lemma getHorizontalSpread_nonNegative (g : GlobalData) (mo : R)
    (angle velocity gr : rnum) :
  moa (activeWeapon g) = Fin mo -> 0 <= mo ->
  nonNegative (getHorizontalSpread g angle velocity gr) = true.
Proof.
  intros Hm Hmo. pose proof PI_RGT_0 as Hpi.
  unfold getHorizontalSpread, getProjectilePathDistance. cbv zeta.
  rewrite Hm. unfold lit. rewrite !div_Fin by lra.
  set (c := mo / 60 / 360).
  assert (Hc : 0 <= c) by (unfold c; lra).
  cbn [RNum.mul RNum.PI].
  destruct (abs_cases ((velocity ** 2 / gr)
      * (RNum.sin angle + RNum.cos angle ** 2 * RNum.atanh (RNum.sin angle)))%rn)
    as [E|[E|(y & E & Hy)]]; rewrite E; cbn [RNum.mul RNum.isNaN].
  - apply nonNegative_lit0.
  - unfold RNum.scaleInf. rewrite (Rltb_true 0 (2 * PI)) by lra.
    cbn [RNum.mul]. unfold RNum.scaleInf.
    destruct (RNum.Rltb 0 c) eqn:E1; [reflexivity|].
    rewrite (Rltb_false c 0) by lra. cbn [RNum.isNaN]. apply nonNegative_lit0.
  - apply nonNegative_Fin. apply Rmult_le_pos; [exact Hc|].
    apply Rmult_le_pos; [lra | exact Hy].
Qed.

(** X23: the spread ellipse has no negative and no not-a-number axis.
    For a weapon whose [moa] is a number that is not negative, and for
    all arguments, both semi-axes that [getElevationWithEllipseParams]
    returns are numbers that are not below 0. *)
Theorem ellipse_axes_nonNegative (g : GlobalData) (mo : R)
    (dist vDelta vel : rnum) :
  moa (activeWeapon g) = Fin mo -> 0 <= mo ->
  let e := ellipseParams (getElevationWithEllipseParams g dist vDelta vel) in
  nonNegative (semiMajorAxis e) = true /\ nonNegative (semiMinorAxis e) = true.
Proof.
  intros Hm Hmo. unfold getElevationWithEllipseParams. cbv zeta.
  cbn [ellipseParams].
  destruct (RNum.neqb _ _); cbn [semiMajorAxis semiMinorAxis].
  - split; [apply (getHorizontalSpread_nonNegative g mo); assumption
           | apply getVerticalSpread_nonNegative].
  - split; apply nonNegative_lit0.
Qed.

(** The theorem at a concrete input. *)
Lemma ellipse_axes_nonNegative_witness :
  let e := ellipseParams
             (getElevationWithEllipseParams sampleGlobalData (Fin 1000) (Fin 0)
                (Fin 110)) in
  nonNegative (semiMajorAxis e) = true /\ nonNegative (semiMinorAxis e) = true.
Proof.
  apply (ellipse_axes_nonNegative sampleGlobalData 50); [reflexivity | lra].
Defined.

End Page.

(* ------------------------------------------------------------------ *)
(** ** The keypad under the mouse *)

Section Mouse.
Local Open Scope Q_scope.

Lemma minimap_getKP_default (s lat lng roundedZoom : Q) :
  0 <= lat * s -> 0 <= lng * s -> lng * s < 7800 ->
  minimap_getKP s lat lng None roundedZoom
  = getKP (lat * s) (lng * s) None roundedZoom.
Proof.
  intros Hlat Hlng Hmax. unfold minimap_getKP, getKP.
  rewrite (Qlt_bool_false _ 0 Hlng), (Qlt_bool_false _ 0 Hlat).
  cbn [orb notPrecision]. cbv zeta.
  pose proof (Qfloor_interval_0_upper (lng * s) 26
                ltac:(change (inject_Z 26 * 300) with 7800; exact Hmax)) as B3.
  replace (65 + Qfloor (lng * s / interval 0) >? 90)%Z with false
    by (symmetry; rewrite Z.gtb_ltb; apply Z.ltb_ge; lia).
  reflexivity.
Qed.

(** X26: the keypad under the mouse.  On a map of at most 26 columns
    ([tilesSize] times [mapToGameScale] below 7800, the scale not
    negative), a mouse position within the bounds of the map opens the
    popup at that position, and the keypad that it shows, whatever the
    zoom, is in the format of the input fields: [formatKeyPad] returns
    it unchanged. *)
Theorem handleMouseMove_keypad (tilesSize s roundedZoom lat lng : Q) :
  0 <= s -> tilesSize * s < 7800 ->
  lat <= 0 -> - tilesSize <= lat -> 0 <= lng -> lng <= tilesSize ->
  exists kp,
    handleMouseMove tilesSize s roundedZoom lat lng
    = PopupOpen lat lng (js "<p>" ++ kp ++ js "</p>")
    /\ formatKeyPad kp = Some kp.
Proof.
  intros Hs HT H1 H2 H3 H4. unfold handleMouseMove.
  rewrite (Qlt_bool_false 0 lat H1), (Qlt_bool_false lat (- tilesSize) H2),
    (Qlt_bool_false lng 0 H3), (Qlt_bool_false tilesSize lng H4).
  cbn [orb].
  assert (Hy : 0 <= - lat * s) by nra.
  assert (Hy' : - lat * s < 29700) by nra.
  assert (Hx : 0 <= lng * s) by nra.
  assert (Hx' : lng * s < 7800) by nra.
  eexists. split; [reflexivity|].
  rewrite (minimap_getKP_default s (- lat) lng roundedZoom Hy Hx Hx').
  rewrite (getKP_keypadString _ _ None roundedZoom Hy (conj Hx Hx')).
  pose proof (Qfloor_interval_nonneg (lng * s) 0 Hx) as B1.
  pose proof (Qfloor_interval_nonneg (- lat * s) 0 Hy) as B2.
  pose proof (Qfloor_interval_0_upper (lng * s) 26
                ltac:(change (inject_Z 26 * 300) with 7800; exact Hx')) as B3.
  pose proof (Qfloor_interval_0_upper (- lat * s) 99
                ltac:(change (inject_Z 99 * 300) with 29700; exact Hy')) as B4.
  destruct (keypadString_dashed (65 + Qfloor (lng * s / interval 0))
              (Qfloor (- lat * s / interval 0) + 1)
              (map (encodeDigit (lng * s) (- lat * s))
                 (seq 1 (subKeypadCount (effectivePrecision None roundedZoom)))))
    as (a & b & subs & E & Hk & _); [lia | lia | |].
  - apply Forall_map, Forall_forall. intros k _.
    apply encodeDigit_range; assumption.
  - rewrite E. apply formatKeyPad_dashed. exact Hk.
Qed.

(** The theorem at a concrete input. *)
Lemma handleMouseMove_keypad_witness :
  exists kp,
    handleMouseMove 256 10 4 (-100) 50
    = PopupOpen (-100) 50 (js "<p>" ++ kp ++ js "</p>")
    /\ formatKeyPad kp = Some kp.
Proof.
  apply handleMouseMove_keypad; reflexivity || discriminate.
Defined.

End Mouse.
